(** * openpoker protocol: the binary message codec of [protocol.go]

    A shallow embedding of the primitive field codecs, the schema registry
    [msgTypes], the frame encoder [writeMessage] and the frame decoder
    [ReadMsg], followed by the properties of the codec.

    Conventions of the embedding:
    - a [uint8] (and every named byte type) is a [byte];
    - a [uint16]/[uint32] is a [Z], every arithmetic step that can wrap is
      written with its wrap-around ([u8], [u16], [u32]); an [int32] is a [Z]
      in two's complement range ([i32]);
    - a [float32] is a [spec_float] of precision 24 and exponent bound 128,
      with the IEEE-754 round-to-nearest-even operations of the library;
    - a Go [string] is a [string] (a sequence of 8-bit characters);
    - an [io.Reader] over an in-memory byte source is the list of bytes not
      yet read, an [io.Writer] the list of bytes written so far. *)

From Stdlib Require Import ZArith List Bool Lia.
From Stdlib Require Import Strings.String Strings.Byte Init.Byte.
From Stdlib Require Import DecimalString.
From Stdlib Require Import Floats.SpecFloat.
Import ListNotations.

Local Open Scope string_scope.
Local Open Scope list_scope.
Local Open Scope Z_scope.

(* ------------------------------------------------------------------ *)
(** ** Machine integers *)

Definition u8 (z : Z) : Z := z mod 256.
Definition u16 (z : Z) : Z := z mod 65536.
Definition u32 (z : Z) : Z := z mod 4294967296.

(** Conversion of a [uint32] bit pattern to [int32]. *)
Definition i32 (z : Z) : Z := (z + 2147483648) mod 4294967296 - 2147483648.

Definition Z_of_byte (b : byte) : Z := Z.of_N (Byte.to_N b).

(** The conversion [uint8(z)]: the low eight bits. *)
Definition byte_of_Z (z : Z) : byte :=
  match Byte.of_N (Z.to_N (u8 z)) with
  | Some b => b
  | None => x00
  end.

(* ------------------------------------------------------------------ *)
(** ** float32 *)

Definition float32 := spec_float.

Definition f32_of_Z (n : Z) : float32 := binary_normalize 24 128 n 0 false.
Definition f32_mul : float32 -> float32 -> float32 := SFmul 24 128.
Definition f32_div : float32 -> float32 -> float32 := SFdiv 24 128.

(** The integer part of a float, rounding toward zero. *)
Definition f32_trunc (x : float32) : Z :=
  match x with
  | S754_finite s m e =>
      let a := match e with
               | Z0 => Zpos m
               | Zpos p => Zpos m * 2 ^ Zpos p
               | Zneg p => Zpos m / 2 ^ Zpos p
               end in
      if s then - a else a
  | _ => 0
  end.

(** The conversion [uint32(x)] of a float32: the fraction is discarded.
    For a value outside the range of [uint32] Go leaves the result to the
    implementation; the low 32 bits of the truncation are what amd64
    produces.  No property below relies on that case. *)
Definition uint32_of_f32 (x : float32) : Z := u32 (f32_trunc x).

(* ------------------------------------------------------------------ *)
(** ** The field types *)

Definition Cmd := byte.
Definition Text := string.
Definition Small := byte.
Definition Big := Z.            (* uint32 *)
Definition Amount := float32.   (* float32 *)
Definition Op := byte.
Definition LimitType := byte.
Definition PlayerState := byte.
Definition GameStage := byte.
Definition GameType := byte.
Definition Id := Z.             (* int32 *)
Definition Seq := byte.
Definition Suit := byte.
Record Card := mkCard { CardSeq : Seq; CardSuit : Suit }.
Definition Cards := list Card.

(** *** Command tags *)

Definition GOOD : Cmd := byte_of_Z 0.
Definition LOGIN : Cmd := byte_of_Z 1.
Definition LOGOUT : Cmd := byte_of_Z 2.
Definition BAD : Cmd := byte_of_Z 255.
Definition START_GAME : Cmd := byte_of_Z 17.
Definition YOU_ARE : Cmd := byte_of_Z 31.
Definition YOUR_GAME : Cmd := byte_of_Z 39.
Definition SEAT_QUERY : Cmd := byte_of_Z 14.
Definition SEAT_INFO : Cmd := byte_of_Z 30.
Definition GAME_QUERY : Cmd := byte_of_Z 13.
Definition GAME_INFO : Cmd := byte_of_Z 18.
Definition JOIN : Cmd := byte_of_Z 8.
Definition NOTIFY_JOIN : Cmd := byte_of_Z 44.
Definition WATCH : Cmd := byte_of_Z 3.
Definition NOTIFY_CANCEL_GAME : Cmd := byte_of_Z 25.
Definition UNWATCH : Cmd := byte_of_Z 4.
Definition LEAVE : Cmd := byte_of_Z 9.
Definition NOTIFY_LEAVE : Cmd := byte_of_Z 45.
Definition NOTIFY_START_GAME : Cmd := byte_of_Z 23.
Definition NOTIFY_BUTTON : Cmd := byte_of_Z 35.
Definition NOTIFY_SB : Cmd := byte_of_Z 36.
Definition BET_REQ : Cmd := byte_of_Z 20.
Definition RAISE : Cmd := byte_of_Z 6.
Definition BALANCE_QUERY : Cmd := byte_of_Z 16.
Definition BALANCE : Cmd := byte_of_Z 33.
Definition FOLD : Cmd := byte_of_Z 7.
Definition NOTIFY_RAISE : Cmd := byte_of_Z 42.
Definition NOTIFY_BB : Cmd := byte_of_Z 37.
Definition NOTIFY_DRAW : Cmd := byte_of_Z 21.
Definition NOTIFY_SHARED : Cmd := byte_of_Z 22.
Definition NOTIFY_HAND : Cmd := byte_of_Z 27.
Definition NOTIFY_END_GAME : Cmd := byte_of_Z 24.
Definition SIT_OUT : Cmd := byte_of_Z 10.
Definition COME_BACK : Cmd := byte_of_Z 11.
Definition CHAT : Cmd := byte_of_Z 12.
Definition NOTIFY_CHAT : Cmd := byte_of_Z 43.
Definition GAME_STAGE : Cmd := byte_of_Z 29.
Definition SHOW_CARDS : Cmd := byte_of_Z 40.
Definition NOTIFY_WIN : Cmd := byte_of_Z 26.
Definition PLAYER_QUERY : Cmd := byte_of_Z 15.
Definition PLAYER_INFO : Cmd := byte_of_Z 19.

Definition GT_TEXAS_HOLDEM : GameType := byte_of_Z 1.
Definition GS_FLOP : GameStage := byte_of_Z 1.

(* ------------------------------------------------------------------ *)
(** ** The message catalog, as [reflect] sees it *)

(** The type of a struct field: one constructor per named field type. *)
Inductive Kind :=
| KCmd | KText | KSmall | KBig | KAmount | KOp | KLimitType
| KPlayerState | KGameStage | KGameType | KId | KSeq | KSuit | KCards.

(** A value of one of the field types. *)
Inductive value :=
| VCmd (c : Cmd)
| VText (t : Text)
| VSmall (n : Small)
| VBig (n : Big)
| VAmount (a : Amount)
| VOp (o : Op)
| VLimitType (l : LimitType)
| VPlayerState (s : PlayerState)
| VGameStage (s : GameStage)
| VGameType (g : GameType)
| VId (i : Id)
| VSeq (s : Seq)
| VSuit (s : Suit)
| VCards (l : Cards).

Definition kind_of (v : value) : Kind :=
  match v with
  | VCmd _ => KCmd | VText _ => KText | VSmall _ => KSmall | VBig _ => KBig
  | VAmount _ => KAmount | VOp _ => KOp | VLimitType _ => KLimitType
  | VPlayerState _ => KPlayerState | VGameStage _ => KGameStage
  | VGameType _ => KGameType | VId _ => KId | VSeq _ => KSeq
  | VSuit _ => KSuit | VCards _ => KCards
  end.

(** The message shapes (the [Msg...] struct types). *)
Inductive MsgType :=
| MsgGood | MsgBad | MsgYouAre | MsgYourGame | MsgSeatInfo | MsgGameInfo
| MsgNotifyJoin | MsgNotifyCancelGame | MsgNotifyLeave | MsgNotifyStartGame
| MsgNotifyButton | MsgNotifySb | MsgBetReq | MsgBalance | MsgNotifyRaise
| MsgNotifyBb | MsgNotifyDraw | MsgNotifyShared | MsgNotifyHand
| MsgNotifyEndGame | MsgNotifyChat | MsgGameStage | MsgShowCards
| MsgNotifyWin | MsgPlayerInfo.

(** The fields of each struct, in declaration order. *)
Definition fields (t : MsgType) : list (string * Kind) :=
  match t with
  | MsgGood => [("Cmd", KCmd); ("Extra", KBig)]
  | MsgBad => [("Cmd", KCmd); ("Error", KSmall)]
  | MsgYouAre => [("Pid", KId)]
  | MsgYourGame => [("Gid", KId)]
  | MsgSeatInfo =>
      [("Gid", KId); ("SeatNum", KSmall); ("State", KPlayerState);
       ("Pid", KId); ("InPlay", KAmount)]
  | MsgGameInfo =>
      [("Gid", KId); ("TableName", KText); ("GameType", KGameType);
       ("LimitType", KLimitType); ("Low", KAmount); ("High", KAmount);
       ("NumSeats", KBig); ("Required", KBig); ("Joined", KBig);
       ("Waiting", KBig)]
  | MsgNotifyJoin =>
      [("Gid", KId); ("Pid", KId); ("Seat", KSmall); ("Amount", KAmount)]
  | MsgNotifyCancelGame => [("Gid", KId)]
  | MsgNotifyLeave => [("Gid", KId); ("Pid", KId)]
  | MsgNotifyStartGame => [("Gid", KId)]
  | MsgNotifyButton => [("Gid", KId); ("Button", KSmall)]
  | MsgNotifySb => [("Gid", KId); ("Sb", KSmall)]
  | MsgBetReq =>
      [("Gid", KId); ("CallAmount", KAmount); ("RaiseMin", KAmount);
       ("RaiseMax", KAmount)]
  | MsgBalance => [("Balance", KAmount); ("InPlay", KAmount)]
  | MsgNotifyRaise =>
      [("Gid", KId); ("Pid", KId); ("RaiseAmount", KAmount);
       ("CallAmount", KAmount)]
  | MsgNotifyBb => [("Gid", KId); ("Bb", KSmall)]
  | MsgNotifyDraw => [("Gid", KId); ("Pid", KId); ("Seq", KSeq); ("Suit", KSuit)]
  | MsgNotifyShared => [("Gid", KId); ("Seq", KSeq); ("Suit", KSuit)]
  | MsgNotifyHand =>
      [("Gid", KId); ("Pid", KId); ("Rank", KSmall); ("Face1", KSmall);
       ("Face2", KSmall)]
  | MsgNotifyEndGame => [("Gid", KId)]
  | MsgNotifyChat => [("Gid", KId); ("Pid", KId); ("Msg", KText)]
  | MsgGameStage => [("Gid", KId); ("Stage", KGameStage)]
  | MsgShowCards => [("Gid", KId); ("Pid", KId); ("Cards", KCards)]
  | MsgNotifyWin => [("Gid", KId); ("Pid", KId); ("Amount", KAmount)]
  | MsgPlayerInfo =>
      [("Pid", KId); ("TotalInPlay", KAmount); ("Nick", KText);
       ("Location", KText)]
  end.

Definition field_kinds (t : MsgType) : list Kind := map snd (fields t).

(** A message instance: a struct type and one value per field, in order. *)
Record Msg := mkMsg { msg_type : MsgType; msg_fields : list value }.

(** *** The schema registry *)

Definition msgTypes : list (Cmd * MsgType) :=
  [ (GOOD, MsgGood);
    (BAD, MsgBad);
    (YOU_ARE, MsgYouAre);
    (YOUR_GAME, MsgYourGame);
    (SEAT_INFO, MsgSeatInfo);
    (GAME_INFO, MsgGameInfo);
    (NOTIFY_JOIN, MsgNotifyJoin);
    (NOTIFY_CANCEL_GAME, MsgNotifyCancelGame);
    (NOTIFY_LEAVE, MsgNotifyLeave);
    (NOTIFY_START_GAME, MsgNotifyStartGame);
    (NOTIFY_BUTTON, MsgNotifyButton);
    (NOTIFY_SB, MsgNotifySb);
    (BET_REQ, MsgBetReq);
    (BALANCE, MsgBalance);
    (NOTIFY_RAISE, MsgNotifyRaise);
    (NOTIFY_BB, MsgNotifyBb);
    (NOTIFY_DRAW, MsgNotifyDraw);
    (NOTIFY_SHARED, MsgNotifyShared);
    (NOTIFY_HAND, MsgNotifyHand);
    (NOTIFY_END_GAME, MsgNotifyEndGame);
    (NOTIFY_CHAT, MsgNotifyChat);
    (GAME_STAGE, MsgGameStage);
    (SHOW_CARDS, MsgShowCards);
    (NOTIFY_WIN, MsgNotifyWin) ].

(** The map index expression [m[c]]: [None] is Go's [nil] for a missing key. *)
Fixpoint index (m : list (Cmd * MsgType)) (c : Cmd) : option MsgType :=
  match m with
  | [] => None
  | (k, t) :: m' => if Byte.eqb k c then Some t else index m' c
  end.

(* ------------------------------------------------------------------ *)
(** ** The byte source *)

Definition Reader := list byte.

Inductive io_error := EOF | ErrUnexpectedEOF.

(** Reading threads the source through every call. *)
Definition io (A : Type) : Type := Reader -> A * Reader.

Definition ret {A : Type} (a : A) : io A := fun r => (a, r).

Definition bind {A B : Type} (m : io A) (k : A -> io B) : io B :=
  fun r => let (a, r') := m r in k a r'.

Notation "x <- m ;; k" := (bind m (fun x => k))
  (at level 61, m at next level, right associativity).
Notation "' p <- m ;; k" := (bind m (fun x => let 'p := x in k))
  (at level 61, p pattern, m at next level, right associativity).

(** [io.ReadFull(r, buf)] with [len(buf) = n]: the buffer afterwards (what
    was not filled stays zero) and the error.  A short read consumes what
    the source still had. *)
Definition io_ReadFull (n : nat) : io (list byte * option io_error) :=
  fun r =>
    let got := firstn n r in
    let err := if Nat.eqb (List.length got) n then None
               else match got with
                    | [] => Some EOF
                    | _ :: _ => Some ErrUnexpectedEOF
                    end in
    ((got ++ repeat x00 (n - List.length got), err), skipn n r).

(** [binary.BigEndian] decoding of a byte slice as an unsigned integer. *)
Definition BigEndian (bs : list byte) : Z :=
  fold_left (fun acc b => Z.lor (Z.shiftl acc 8) (Z_of_byte b)) bs 0.

(** [binary.Read(r, binary.BigEndian, &data)] for an unsigned integer of
    [n] bytes: on an error [data] keeps its zero value. *)
Definition binary_Read (n : nat) : io (option io_error * Z) :=
  '(bs, err) <- io_ReadFull n ;;
  match err with
  | Some e => ret (Some e, 0)
  | None => ret (None, BigEndian bs)
  end.

Definition readByte : io byte :=
  '(_, data) <- binary_Read 1 ;;
  ret (byte_of_Z data).

Definition readInt : io Z :=
  '(_, data) <- binary_Read 4 ;;
  ret data.

Definition readString : io (string * Z) :=
  '(_, size) <- binary_Read 1 ;;
  '(bytes, _) <- io_ReadFull (Z.to_nat size) ;;
  ret (string_of_list_byte bytes, u16 (u8 (size + 1))).

(** *** The [read] methods: the decoded value and the byte count reported *)

Fixpoint Cards_read_loop (n : nat) : io Cards :=
  match n with
  | O => ret []
  | S n' =>
      s <- readByte ;;
      t <- readByte ;;
      v <- Cards_read_loop n' ;;
      ret (mkCard s t :: v)
  end.

Definition Cards_read : io (Cards * Z) :=
  n <- readByte ;;
  v <- Cards_read_loop (Z.to_nat (Z_of_byte n)) ;;
  ret (v, u16 (u16 (2 * Z_of_byte n) + 1)).

Definition Cmd_read : io (Cmd * Z) := c <- readByte ;; ret (c, 1).

Definition Text_read : io (Text * Z) := '(s, l) <- readString ;; ret (s, l).

Definition Small_read : io (Small * Z) := c <- readByte ;; ret (c, 1).

Definition Big_read : io (Big * Z) := b <- readInt ;; ret (b, 4).

Definition hundred : float32 := f32_of_Z 100.

Definition Amount_read : io (Amount * Z) :=
  n <- readInt ;; ret (f32_div (f32_of_Z n) hundred, 4).

Definition Op_read : io (Op * Z) := c <- readByte ;; ret (c, 1).
Definition LimitType_read : io (LimitType * Z) := c <- readByte ;; ret (c, 1).
Definition GameStage_read : io (GameStage * Z) := c <- readByte ;; ret (c, 1).
Definition PlayerState_read : io (PlayerState * Z) := c <- readByte ;; ret (c, 1).
Definition GameType_read : io (GameType * Z) := c <- readByte ;; ret (c, 1).
Definition Seq_read : io (Seq * Z) := c <- readByte ;; ret (c, 1).
Definition Suit_read : io (Suit * Z) := c <- readByte ;; ret (c, 1).
Definition Id_read : io (Id * Z) := c <- readInt ;; ret (i32 c, 4).

(** The [readable] interface: the [read] method of a field of kind [k]. *)
Definition read (k : Kind) : io (value * Z) :=
  match k with
  | KCmd => '(x, n) <- Cmd_read ;; ret (VCmd x, n)
  | KText => '(x, n) <- Text_read ;; ret (VText x, n)
  | KSmall => '(x, n) <- Small_read ;; ret (VSmall x, n)
  | KBig => '(x, n) <- Big_read ;; ret (VBig x, n)
  | KAmount => '(x, n) <- Amount_read ;; ret (VAmount x, n)
  | KOp => '(x, n) <- Op_read ;; ret (VOp x, n)
  | KLimitType => '(x, n) <- LimitType_read ;; ret (VLimitType x, n)
  | KPlayerState => '(x, n) <- PlayerState_read ;; ret (VPlayerState x, n)
  | KGameStage => '(x, n) <- GameStage_read ;; ret (VGameStage x, n)
  | KGameType => '(x, n) <- GameType_read ;; ret (VGameType x, n)
  | KId => '(x, n) <- Id_read ;; ret (VId x, n)
  | KSeq => '(x, n) <- Seq_read ;; ret (VSeq x, n)
  | KSuit => '(x, n) <- Suit_read ;; ret (VSuit x, n)
  | KCards => '(x, n) <- Cards_read ;; ret (VCards x, n)
  end.

(* ------------------------------------------------------------------ *)
(** ** The byte sink *)

Definition Writer := list byte.

(** [binary.BigEndian] encoding of the low [n] bytes of [z]. *)
Fixpoint PutBigEndian (n : nat) (z : Z) : list byte :=
  match n with
  | O => []
  | S n' => byte_of_Z (Z.shiftr z (8 * Z.of_nat n')) :: PutBigEndian n' z
  end.

(** [binary.Write(w, binary.BigEndian, data)] for an integer of [n] bytes. *)
Definition binary_Write (n : nat) (w : Writer) (data : Z) : Writer :=
  w ++ PutBigEndian n data.

(** [binary.Write(w, binary.BigEndian, bytes)] for a byte slice. *)
Definition binary_Write_bytes (w : Writer) (bytes : list byte) : Writer :=
  w ++ bytes.

(** *** The [write] methods *)

Definition LimitType_write (o : LimitType) (w : Writer) : Writer :=
  binary_Write 1 w (Z_of_byte o).
Definition Id_write (i : Id) (w : Writer) : Writer := binary_Write 4 w i.
Definition GameType_write (g : GameType) (w : Writer) : Writer :=
  binary_Write 1 w (Z_of_byte g).
Definition Op_write (o : Op) (w : Writer) : Writer :=
  binary_Write 1 w (Z_of_byte o).
Definition Cmd_write (c : Cmd) (w : Writer) : Writer :=
  binary_Write 1 w (Z_of_byte c).
Definition Small_write (n : Small) (w : Writer) : Writer :=
  binary_Write 1 w (Z_of_byte n).
Definition Big_write (n : Big) (w : Writer) : Writer := binary_Write 4 w n.

Definition Amount_write (n : Amount) (w : Writer) : Writer :=
  Big_write (uint32_of_f32 (f32_mul n hundred)) w.

Definition Text_write (t : Text) (w : Writer) : Writer :=
  let bytes := list_byte_of_string t in
  let w := binary_Write 1 w (u8 (Z.of_nat (List.length bytes))) in
  binary_Write_bytes w bytes.

(** The [writable] interface: the values of the types that have a [write]
    method.  [PlayerState], [GameStage], [Seq], [Suit] and [Cards] have
    none. *)
Inductive writable :=
| WLimitType (o : LimitType)
| WId (i : Id)
| WGameType (g : GameType)
| WOp (o : Op)
| WCmd (c : Cmd)
| WSmall (n : Small)
| WBig (n : Big)
| WAmount (n : Amount)
| WText (t : Text).

Definition write (v : writable) (w : Writer) : Writer :=
  match v with
  | WLimitType o => LimitType_write o w
  | WId i => Id_write i w
  | WGameType g => GameType_write g w
  | WOp o => Op_write o w
  | WCmd c => Cmd_write c w
  | WSmall n => Small_write n w
  | WBig n => Big_write n w
  | WAmount n => Amount_write n w
  | WText t => Text_write t w
  end.

(** A field value seen through the [writable] interface, when its type
    implements it. *)
Definition as_writable (v : value) : option writable :=
  match v with
  | VCmd c => Some (WCmd c)
  | VText t => Some (WText t)
  | VSmall n => Some (WSmall n)
  | VBig n => Some (WBig n)
  | VAmount a => Some (WAmount a)
  | VOp o => Some (WOp o)
  | VLimitType l => Some (WLimitType l)
  | VGameType g => Some (WGameType g)
  | VId i => Some (WId i)
  | VPlayerState _ | VGameStage _ | VSeq _ | VSuit _ | VCards _ => None
  end.

Fixpoint as_writables (vs : list value) : option (list writable) :=
  match vs with
  | [] => Some []
  | v :: vs' =>
      match as_writable v, as_writables vs' with
      | Some w, Some ws => Some (w :: ws)
      | _, _ => None
      end
  end.

(* ------------------------------------------------------------------ *)
(** ** Frames *)

Definition writeMessage (w : Writer) (body : list writable) : Writer :=
  let buf := fold_left (fun buf v => write v buf) body [] in
  let w := binary_Write 2 w (u16 (Z.of_nat (List.length buf))) in
  w ++ buf.

Inductive error :=
| ErrIO (e : io_error)
| ErrCannotDeserialize (c : Cmd)
| ErrTooShort (c : Cmd)
| ErrTooLong (c : Cmd).

(** The loop of [ReadMsg] over the fields of the struct: [size] is the
    running [uint16] counter, [v] the fields populated so far. *)
Fixpoint read_fields (c : Cmd) (fs : list Kind) (size : Z) (v : list value)
  : io (error + Z * list value) :=
  match fs with
  | [] => ret (inr (size, v))
  | k :: fs' =>
      '(x, n) <- read k ;;
      let size := u16 (size - n) in
      if size <? 0 then ret (inl (ErrTooShort c))
      else read_fields c fs' size (v ++ [x])
  end.

(** [ReadMsg]: the error ([None] is [nil]), the command and the message
    ([None] is [nil]). *)
Definition ReadMsg : io (option error * Cmd * option Msg) :=
  '(err, size) <- binary_Read 2 ;;
  match err with
  | Some e => ret (Some (ErrIO e), x00, None)
  | None =>
      c <- readByte ;;
      let size := u16 (size - 1) in
      match index msgTypes c with
      | None => ret (Some (ErrCannotDeserialize c), c, None)
      | Some typ =>
          res <- read_fields c (field_kinds typ) size [] ;;
          match res with
          | inl e => ret (Some e, c, None)
          | inr (size, v) =>
              if size >? 0 then ret (Some (ErrTooLong c), c, None)
              else ret (None, c, Some (mkMsg typ v))
          end
      end
  end.

Definition WriteLogin (w : Writer) (nick pass : Text) : Writer :=
  writeMessage w [WCmd LOGIN; WText nick; WText pass].

(* ------------------------------------------------------------------ *)
(** ** Notions used by the properties *)

(** The bytes a message body is written as. *)
Definition encode (body : list writable) : list byte :=
  flat_map (fun v => write v []) body.

(** The values the [read] methods produce along a field list, and the sum
    of the byte counts they report. *)
Fixpoint decode_fields (fs : list Kind) : io (list value * Z) :=
  match fs with
  | [] => ret ([], 0)
  | k :: fs' =>
      '(x, n) <- read k ;;
      '(xs, m) <- decode_fields fs' ;;
      ret (x :: xs, n + m)
  end.

(** The amount whose wire integer is [n]: the float32 nearest to [n / 100],
    which is what [Amount.read] makes of [n]. *)
Definition hundredths (n : Z) : Amount := f32_div (f32_of_Z n) hundred.

(** An amount that [Amount.write] followed by [Amount.read] gives back. *)
Definition amount_exact (a : Amount) : Prop :=
  hundredths (uint32_of_f32 (f32_mul a hundred)) = a.

(** The values of each field type for which the encoders and decoders
    agree: integers inside the range of their Go type, a text of at most
    254 bytes, an amount that the amount codec reproduces. *)
Definition in_domain (v : value) : Prop :=
  match v with
  | VText t => (String.length t <= 254)%nat
  | VBig n => 0 <= n < 4294967296
  | VId i => - 2147483648 <= i < 2147483648
  | VAmount a => amount_exact a
  | VCards l => (List.length l <= 255)%nat
  | _ => True
  end.

(** Every [read] method leaves the source some number [m] of bytes further
    on (or at its end), and reports at most [m]. *)
Definition advances {A : Type} (res : (A * Z) * Reader) (r : Reader) : Prop :=
  exists m : nat, snd res = skipn m r /\ 0 <= snd (fst res) <= Z.of_nat m.

(** The bytes the fields of a shape take from the source. *)
Definition consumed (fs : list Kind) (r : Reader) : nat :=
  List.length r - List.length (snd (decode_fields fs r)).

(** [Amount.write] followed by [Amount.read]. *)
Definition amount_roundtrip (a : Amount) : Amount :=
  fst (fst (Amount_read (Amount_write a []))).

(** A text of [n] bytes, all the letter a. *)
Definition text_of_length (n : nat) : Text :=
  string_of_list_byte (repeat x61 n).

(** The frame of a login request with nick alice and password secret. *)
Definition login_frame : list byte :=
  [x00; x0e; x01; x05; x61; x6c; x69; x63; x65;
   x06; x73; x65; x63; x72; x65; x74].

(** The same bytes with a length prefix of 13. *)
Definition login_frame_13 : list byte :=
  [x00; x0d; x01; x05; x61; x6c; x69; x63; x65;
   x06; x73; x65; x63; x72; x65; x74].

(* ------------------------------------------------------------------ *)
(** ** The request helpers *)

Definition WriteLogout (w : Writer) : Writer :=
  writeMessage w [WCmd LOGOUT].

Definition WriteStartGame (w : Writer) (numSeats required : Big)
    (l : LimitType) (low high : Amount) : Writer :=
  writeMessage w
    [WCmd START_GAME;
     WText "Test Table";
     WGameType GT_TEXAS_HOLDEM;
     WLimitType l;
     WAmount low;
     WAmount high;
     WBig numSeats;
     WBig required;
     WBig 14000;
     WBig 3600000;
     WSmall (byte_of_Z 0)].

Definition WriteFold (w : Writer) (gid : Id) : Writer :=
  writeMessage w [WCmd FOLD; WId gid].

Definition WriteSeatQuery (w : Writer) (gid : Id) : Writer :=
  writeMessage w [WCmd SEAT_QUERY; WId gid].

Definition WriteGameQuery (w : Writer) (l : LimitType) (OpSeats : Op)
    (numSeats : Small) (OpJoined : Op) (joined : Small) (OpWaiting : Op)
    (waiting : Small) : Writer :=
  writeMessage w
    [WCmd GAME_QUERY;
     WGameType GT_TEXAS_HOLDEM;
     WLimitType l;
     WOp OpSeats;
     WSmall numSeats;
     WOp OpJoined;
     WSmall joined;
     WOp OpWaiting;
     WSmall waiting].

Definition WriteJoin (w : Writer) (gid : Id) (seat : Small) (amt : Amount)
  : Writer :=
  writeMessage w [WCmd JOIN; WId gid; WSmall seat; WAmount amt].

Definition WriteWatch (w : Writer) (gid : Id) : Writer :=
  writeMessage w [WCmd WATCH; WId gid].

Definition WriteUnwatch (w : Writer) (gid : Id) : Writer :=
  writeMessage w [WCmd UNWATCH; WId gid].

Definition WriteLeave (w : Writer) (gid : Id) : Writer :=
  writeMessage w [WCmd LEAVE; WId gid].

Definition WriteRaise (w : Writer) (gid : Id) (raiseAmount : Amount)
  : Writer :=
  writeMessage w [WCmd RAISE; WId gid; WAmount raiseAmount].

Definition WriteBalanceQuery (w : Writer) : Writer :=
  writeMessage w [WCmd BALANCE_QUERY].

Definition WriteSitOut (w : Writer) (gid : Id) : Writer :=
  writeMessage w [WCmd SIT_OUT; WId gid].

Definition WriteComeBack (w : Writer) (gid : Id) : Writer :=
  writeMessage w [WCmd COME_BACK; WId gid].

Definition WriteChat (w : Writer) (msg : Text) : Writer :=
  writeMessage w [WCmd CHAT; WText msg].

Definition WritePlayerQuery (w : Writer) (pid : Id) : Writer :=
  writeMessage w [WCmd PLAYER_QUERY; WId pid].

(* ------------------------------------------------------------------ *)
(** ** Names of stages and commands *)

Definition GS_PREFLOP : GameStage := byte_of_Z 0.
Definition GS_TURN : GameStage := byte_of_Z 2.
Definition GS_RIVER : GameStage := byte_of_Z 3.
Definition GS_DELAYED_START : GameStage := byte_of_Z 4.
Definition GS_BLINDS : GameStage := byte_of_Z 5.
Definition GS_SHOWDOWN : GameStage := byte_of_Z 6.

(** A [switch] over constant cases: the first case equal to [c] decides. *)
Fixpoint switch (c : byte) (cases : list (byte * string)) (default : string)
  : string :=
  match cases with
  | [] => default
  | (k, s) :: cases' => if Byte.eqb c k then s else switch c cases' default
  end.

Definition GameStage_String (c : GameStage) : string :=
  switch c
    [ (GS_BLINDS, "Blinds");
      (GS_FLOP, "Flop");
      (GS_PREFLOP, "Pre-flop");
      (GS_RIVER, "River");
      (GS_SHOWDOWN, "Showdown");
      (GS_TURN, "Turn");
      (GS_DELAYED_START, "Delayed start") ]
    "Unknown game stage".

(** [fmt.Sprintf("%d", uint8(c))]. *)
Definition Sprintf_d (c : byte) : string :=
  NilZero.string_of_uint (N.to_uint (Byte.to_N c)).

Definition Cmd_String (c : Cmd) : string :=
  switch c
    [ (GOOD, "GOOD");
      (BAD, "BAD");
      (LOGIN, "LOGIN");
      (START_GAME, "START_GAME");
      (YOU_ARE, "YOU_ARE");
      (YOUR_GAME, "YOUR_GAME");
      (SEAT_INFO, "SEAT_INFO");
      (GAME_INFO, "GAME_INFO");
      (NOTIFY_JOIN, "NOTIFY_JOIN");
      (NOTIFY_CANCEL_GAME, "NOTIFY_CANCEL_GAME");
      (LOGOUT, "LOGOUT");
      (GAME_QUERY, "GAME_QUERY");
      (UNWATCH, "UNWATCH");
      (LEAVE, "LEAVE");
      (NOTIFY_LEAVE, "NOTIFY_LEAVE");
      (WATCH, "WATCH");
      (JOIN, "JOIN");
      (NOTIFY_START_GAME, "NOTIFY_START_GAME");
      (NOTIFY_BUTTON, "NOTIFY_BUTTON");
      (NOTIFY_SB, "NOTIFY_SB");
      (BET_REQ, "BET_REQ");
      (RAISE, "RAISE");
      (SEAT_QUERY, "SEAT_QUERY");
      (BALANCE_QUERY, "BALANCE_QUERY");
      (BALANCE, "BALANCE");
      (FOLD, "FOLD");
      (NOTIFY_RAISE, "NOTIFY_RAISE");
      (NOTIFY_BB, "NOTIFY_BB");
      (NOTIFY_DRAW, "NOTIFY_DRAW");
      (NOTIFY_SHARED, "NOTIFY_SHARED");
      (NOTIFY_HAND, "NOTIFY_HAND");
      (NOTIFY_END_GAME, "NOTIFY_END_GAME");
      (SIT_OUT, "SIT_OUT");
      (COME_BACK, "COME_BACK");
      (CHAT, "CHAT");
      (NOTIFY_CHAT, "NOTIFY_CHAT");
      (GAME_STAGE, "GAME_STAGE");
      (SHOW_CARDS, "SHOW_CARDS");
      (NOTIFY_WIN, "NOTIFY_WIN");
      (PLAYER_QUERY, "PLAYER_QUERY");
      (PLAYER_INFO, "PLAYER_INFO") ]
    ("Unknown Command (" ++ Sprintf_d c ++ ")")%string.

(** The text of the errors [ReadMsg] builds with [errors.New], and of the
    two errors of the [io] package it can pass on. *)
Definition Error (e : error) : string :=
  match e with
  | ErrIO EOF => "EOF"
  | ErrIO ErrUnexpectedEOF => "unexpected EOF"
  | ErrCannotDeserialize c => "Cannot deserialize " ++ Cmd_String c
  | ErrTooShort c =>
      "The " ++ Cmd_String c ++ " message was too short to pOpulate all fields."
  | ErrTooLong c =>
      "The " ++ Cmd_String c ++ " message was too long to pOpulate all fields."
  end%string.

(* ------------------------------------------------------------------ *)
(** ** Further notions used by the properties *)

(** The wire form of a card list that [Cards.read] parses: a count byte and
    one (rank, suit) byte pair per card. *)
Definition Cards_wire (l : Cards) : list byte :=
  byte_of_Z (Z.of_nat (List.length l))
  :: flat_map (fun c => [CardSeq c; CardSuit c]) l.

(** The values a decoder can produce for each field type. *)
Definition decodable (v : value) : Prop :=
  match v with
  | VText t => (String.length t <= 255)%nat
  | VBig n => 0 <= n < 4294967296
  | VId i => - 2147483648 <= i < 2147483648
  | VAmount a => exists n, 0 <= n < 4294967296 /\ a = hundredths n
  | VCards l => (List.length l <= 255)%nat
  | _ => True
  end.

(** All the bytes, in order. *)
Definition all_bytes : list byte :=
  map (fun n => byte_of_Z (Z.of_nat n)) (seq 0 256).

(** Every error [ReadMsg] has a constructor for. *)
Definition all_errors : list error :=
  [ErrIO EOF; ErrIO ErrUnexpectedEOF]
  ++ flat_map
       (fun c => [ErrCannotDeserialize c; ErrTooShort c; ErrTooLong c])
       all_bytes.

(** No string occurs twice in the list. *)
Fixpoint distinct (l : list string) : bool :=
  match l with
  | [] => true
  | s :: l' => negb (existsb (String.eqb s) l') && distinct l'
  end.

(** What [Cmd.String] returns for a tag outside its [switch]. *)
Definition unknown_command (c : Cmd) : string :=
  ("Unknown Command (" ++ Sprintf_d c ++ ")")%string.

(** The wire integers from [lo] on, [n] of them. *)
Fixpoint wire_range (lo : Z) (n : nat) : list Z :=
  match n with
  | O => []
  | S n' => lo :: wire_range (lo + 1) n'
  end.

(** What [Amount.write] puts on the wire for the amount [Amount.read] makes
    of the wire integer [n]. *)
Definition rewritten (n : Z) : Z :=
  uint32_of_f32 (f32_mul (hundredths n) hundred).

(* ------------------------------------------------------------------ *)
(** ** Bytes and big-endian integers *)

Lemma Z_of_byte_range (b : byte) : 0 <= Z_of_byte b < 256.
Proof.
  unfold Z_of_byte. pose proof (Byte.to_N_bounded b). lia.
Qed.

Lemma byte_of_Z_of_byte (b : byte) : byte_of_Z (Z_of_byte b) = b.
Proof.
  unfold byte_of_Z, u8. pose proof (Z_of_byte_range b) as Hb.
  rewrite Z.mod_small by exact Hb.
  unfold Z_of_byte. rewrite N2Z.id, Byte.of_to_N. reflexivity.
Qed.

Lemma Z_of_byte_of_Z (z : Z) : Z_of_byte (byte_of_Z z) = u8 z.
Proof.
  unfold byte_of_Z.
  assert (Hr : 0 <= u8 z < 256) by (unfold u8; apply Z.mod_pos_bound; lia).
  destruct (Byte.of_N (Z.to_N (u8 z))) as [b|] eqn:E.
  - apply Byte.to_of_N in E. unfold Z_of_byte. rewrite E. lia.
  - apply Byte.of_N_None_iff in E. lia.
Qed.

Lemma byte_of_Z_u8 (z : Z) : byte_of_Z (u8 z) = byte_of_Z z.
Proof.
  unfold byte_of_Z, u8. rewrite Z.mod_mod by lia. reflexivity.
Qed.

Lemma lor_shiftl_byte (acc : Z) (b : byte) :
  Z.lor (Z.shiftl acc 8) (Z_of_byte b) = acc * 256 + Z_of_byte b.
Proof.
  pose proof (Z_of_byte_range b) as Hb.
  rewrite Z.shiftl_mul_pow2 by lia. change (2 ^ 8) with 256.
  pose proof (Z.add_lor_land (acc * 256) (Z_of_byte b)) as Hadd.
  assert (Hl : Z.land (acc * 256) (Z_of_byte b) = 0).
  { apply Z.bits_inj'. intros n Hn.
    rewrite Z.land_spec, Z.bits_0.
    destruct (Z.ltb_spec n 8) as [Hlt | Hge].
    - change 256 with (2 ^ 8). rewrite Z.mul_pow2_bits_low by lia. reflexivity.
    - rewrite (Z.bits_above_log2 (Z_of_byte b) n), andb_false_r; trivial; try lia.
      destruct (Z.eq_dec (Z_of_byte b) 0) as [E | E].
      + rewrite E. simpl. lia.
      + apply Z.log2_lt_pow2; [lia |].
        apply Z.lt_le_trans with (2 ^ 8); [change (2 ^ 8) with 256; lia |].
        apply Z.pow_le_mono_r; lia. }
  rewrite Hl in Hadd. lia.
Qed.

Lemma BigEndian_fold (n : nat) (z acc : Z) :
  fold_left (fun a b => Z.lor (Z.shiftl a 8) (Z_of_byte b)) (PutBigEndian n z) acc
  = acc * 2 ^ (8 * Z.of_nat n) + z mod 2 ^ (8 * Z.of_nat n).
Proof.
  revert acc. induction n as [| n IH]; intros acc.
  - simpl. rewrite Z.mod_1_r. lia.
  - cbn [PutBigEndian fold_left]. rewrite IH, lor_shiftl_byte, Z_of_byte_of_Z.
    unfold u8. rewrite Z.shiftr_div_pow2 by lia.
    replace (8 * Z.of_nat (S n)) with (8 * Z.of_nat n + 8) by lia.
    rewrite Z.pow_add_r by lia. change (2 ^ 8) with 256.
    assert (Hp : 0 < 2 ^ (8 * Z.of_nat n)) by (apply Z.pow_pos_nonneg; lia).
    rewrite (Z.rem_mul_r z (2 ^ (8 * Z.of_nat n)) 256) by lia.
    lia.
Qed.

Lemma BigEndian_Put (n : nat) (z : Z) :
  BigEndian (PutBigEndian n z) = z mod 2 ^ (8 * Z.of_nat n).
Proof.
  unfold BigEndian. rewrite BigEndian_fold. lia.
Qed.

Lemma PutBigEndian_length (n : nat) (z : Z) :
  List.length (PutBigEndian n z) = n.
Proof.
  induction n as [| n IH]; simpl; congruence.
Qed.

Lemma PutBigEndian_1 (b : byte) : PutBigEndian 1 (Z_of_byte b) = [b].
Proof.
  cbn [PutBigEndian]. change (8 * Z.of_nat 0) with 0.
  rewrite Z.shiftr_0_r, byte_of_Z_of_byte. reflexivity.
Qed.

Lemma BigEndian_1 (b : byte) : BigEndian [b] = Z_of_byte b.
Proof.
  unfold BigEndian. cbn [fold_left]. rewrite lor_shiftl_byte. lia.
Qed.

Lemma BigEndian_2 (hi lo : byte) :
  BigEndian [hi; lo] = 256 * Z_of_byte hi + Z_of_byte lo.
Proof.
  unfold BigEndian. cbn [fold_left]. rewrite !lor_shiftl_byte. lia.
Qed.

Arguments byte_of_Z : simpl never.
Arguments Z_of_byte : simpl never.
Arguments BigEndian : simpl never.
Arguments index : simpl never.

(* ------------------------------------------------------------------ *)
(** ** Reading what was written *)

Lemma io_ReadFull_app (bs : list byte) (r : Reader) :
  io_ReadFull (List.length bs) (bs ++ r) = ((bs, None), r).
Proof.
  unfold io_ReadFull.
  rewrite firstn_app, Nat.sub_diag, firstn_all, firstn_O, app_nil_r.
  rewrite Nat.eqb_refl, Nat.sub_diag, skipn_app, skipn_all, Nat.sub_diag.
  simpl. rewrite app_nil_r. reflexivity.
Qed.

Lemma binary_Read_Put (n : nat) (z : Z) (r : Reader) :
  binary_Read n (PutBigEndian n z ++ r)
  = ((None, z mod 2 ^ (8 * Z.of_nat n)), r).
Proof.
  unfold binary_Read, bind.
  rewrite <- (PutBigEndian_length n z) at 1.
  rewrite io_ReadFull_app. unfold ret. rewrite BigEndian_Put. reflexivity.
Qed.

Lemma binary_Read_1 (r : Reader) :
  binary_Read 1 r = match r with
                    | [] => ((Some EOF, 0), [])
                    | b :: r' => ((None, Z_of_byte b), r')
                    end.
Proof.
  destruct r as [| b r']; [reflexivity |].
  unfold binary_Read, bind, io_ReadFull, ret. cbn [firstn skipn List.length Nat.eqb Nat.sub repeat app].
  rewrite BigEndian_1. reflexivity.
Qed.

Lemma readByte_cons (b : byte) (r : Reader) : readByte (b :: r) = (b, r).
Proof.
  unfold readByte, bind. rewrite binary_Read_1. unfold ret.
  rewrite byte_of_Z_of_byte. reflexivity.
Qed.

Lemma readByte_nil : readByte [] = (x00, []).
Proof. reflexivity. Qed.

Lemma readByte_skipn (r : Reader) : snd (readByte r) = skipn 1 r.
Proof.
  destruct r as [| b r']; [reflexivity |]. rewrite readByte_cons. reflexivity.
Qed.

Lemma readInt_Put (z : Z) (r : Reader) :
  readInt (PutBigEndian 4 z ++ r) = (u32 z, r).
Proof.
  unfold readInt, bind. rewrite binary_Read_Put. reflexivity.
Qed.

Lemma binary_Read_skipn (n : nat) (r : Reader) :
  snd (binary_Read n r) = skipn n r.
Proof.
  unfold binary_Read, bind, io_ReadFull, ret.
  destruct (Nat.eqb (List.length (firstn n r)) n); [reflexivity |].
  destruct (firstn n r); reflexivity.
Qed.

Lemma readInt_skipn (r : Reader) : snd (readInt r) = skipn 4 r.
Proof.
  unfold readInt, bind.
  pose proof (binary_Read_skipn 4 r) as H.
  destruct (binary_Read 4 r) as [[e d] r']. exact H.
Qed.

Lemma string_length_bytes (t : string) :
  List.length (list_byte_of_string t) = String.length t.
Proof.
  unfold list_byte_of_string. rewrite length_map.
  induction t as [| a t IH]; simpl; congruence.
Qed.

Lemma Text_write_nil (t : Text) :
  Text_write t []
  = byte_of_Z (Z.of_nat (String.length t)) :: list_byte_of_string t.
Proof.
  unfold Text_write, binary_Write, binary_Write_bytes.
  cbn [PutBigEndian app]. change (8 * Z.of_nat 0) with 0.
  rewrite Z.shiftr_0_r, byte_of_Z_u8, string_length_bytes. reflexivity.
Qed.

Lemma readString_write (t : Text) (r : Reader) :
  (String.length t <= 255)%nat ->
  readString (Text_write t [] ++ r)
  = ((t, u16 (u8 (Z.of_nat (String.length t) + 1))), r).
Proof.
  intros Hlen. rewrite Text_write_nil. unfold readString, bind.
  cbn [app]. rewrite binary_Read_1.
  assert (E : u8 (Z.of_nat (String.length t)) = Z.of_nat (String.length t))
    by (unfold u8; apply Z.mod_small; lia).
  rewrite Z_of_byte_of_Z, !E.
  rewrite Nat2Z.id, <- string_length_bytes, io_ReadFull_app.
  unfold ret. rewrite string_of_list_byte_of_string. reflexivity.
Qed.

Lemma binary_Read_2 (hi lo : byte) (r : Reader) :
  binary_Read 2 (hi :: lo :: r)
  = ((None, 256 * Z_of_byte hi + Z_of_byte lo), r).
Proof.
  unfold binary_Read, bind, io_ReadFull, ret.
  cbn [firstn skipn List.length Nat.eqb Nat.sub repeat app].
  rewrite BigEndian_2. reflexivity.
Qed.

Lemma binary_Read_short (r : Reader) :
  (List.length r < 2)%nat ->
  binary_Read 2 r
  = ((Some (match r with [] => EOF | _ :: _ => ErrUnexpectedEOF end), 0), []).
Proof.
  intros H. destruct r as [| a [| b r]]; [reflexivity | reflexivity |].
  simpl in H. lia.
Qed.

(* ------------------------------------------------------------------ *)
(** ** The bytes a message body encodes to *)

Lemma write_app (v : writable) (w : Writer) : write v w = w ++ write v [].
Proof.
  destruct v; cbn [write];
    unfold LimitType_write, Id_write, GameType_write, Op_write, Cmd_write,
      Small_write, Big_write, Amount_write, Big_write, Text_write,
      binary_Write, binary_Write_bytes;
    cbn [app]; try reflexivity.
  rewrite <- app_assoc. reflexivity.
Qed.

Lemma fold_left_write (body : list writable) (buf : Writer) :
  fold_left (fun buf v => write v buf) body buf = buf ++ encode body.
Proof.
  revert buf. induction body as [| v body IH]; intros buf; cbn [fold_left].
  - unfold encode. simpl. rewrite app_nil_r. reflexivity.
  - rewrite IH, (write_app v buf). unfold encode. cbn [flat_map].
    rewrite <- app_assoc. reflexivity.
Qed.

Lemma writeMessage_eq (w : Writer) (body : list writable) :
  writeMessage w body
  = w ++ PutBigEndian 2 (u16 (Z.of_nat (List.length (encode body))))
      ++ encode body.
Proof.
  unfold writeMessage, binary_Write. rewrite fold_left_write.
  cbn [app]. rewrite <- app_assoc. reflexivity.
Qed.

(* ------------------------------------------------------------------ *)
(** ** The field loop without its size accounting *)

Lemma u16_range (z : Z) : 0 <= u16 z < 65536.
Proof. unfold u16. apply Z.mod_pos_bound. lia. Qed.

Lemma u16_small (z : Z) : 0 <= z < 65536 -> u16 z = z.
Proof. intros H. unfold u16. apply Z.mod_small. exact H. Qed.

Lemma u16_sub_sub (a b c : Z) : u16 (u16 (a - b) - c) = u16 (a - (b + c)).
Proof.
  unfold u16. rewrite Zminus_mod_idemp_l. f_equal. lia.
Qed.

(** The counter is unsigned: the test [size < 0] never holds, the loop runs
    to the end of the field list. *)
Lemma read_fields_spec (c : Cmd) (fs : list Kind) (size : Z) (v : list value)
    (r : Reader) :
  0 <= size < 65536 ->
  read_fields c fs size v r
  = let '((xs, m), r') := decode_fields fs r in
    (inr (u16 (size - m), v ++ xs), r').
Proof.
  revert size v r. induction fs as [| k fs IH]; intros size v r Hs.
  - cbn [read_fields decode_fields]. unfold ret.
    rewrite Z.sub_0_r, u16_small, app_nil_r by exact Hs. reflexivity.
  - cbn [read_fields decode_fields]. unfold bind.
    destruct (read k r) as [[x n] r1].
    pose proof (u16_range (size - n)) as Hr.
    destruct (Z.ltb_spec (u16 (size - n)) 0) as [Hneg | _]; [lia |].
    rewrite IH by exact Hr.
    destruct (decode_fields fs r1) as [[xs m] r2]. unfold ret.
    rewrite u16_sub_sub, <- app_assoc. reflexivity.
Qed.

(** [ReadMsg] on a source that holds a length prefix and a registered tag. *)
Lemma ReadMsg_frame (hi lo tag : byte) (rest : Reader) (typ : MsgType) :
  index msgTypes tag = Some typ ->
  ReadMsg (hi :: lo :: tag :: rest)
  = let '((xs, m), r') := decode_fields (field_kinds typ) rest in
    if u16 (256 * Z_of_byte hi + Z_of_byte lo - (1 + m)) >? 0
    then ((Some (ErrTooLong tag), tag, None), r')
    else ((None, tag, Some (mkMsg typ xs)), r').
Proof.
  intros Hreg. unfold ReadMsg, bind.
  rewrite binary_Read_2, readByte_cons, Hreg.
  rewrite read_fields_spec by apply u16_range.
  destruct (decode_fields (field_kinds typ) rest) as [[xs m] r'].
  rewrite u16_sub_sub. cbn [app]. unfold ret.
  destruct (u16 (256 * Z_of_byte hi + Z_of_byte lo - (1 + m)) >? 0);
    reflexivity.
Qed.

Lemma ReadMsg_unregistered (hi lo tag : byte) (rest : Reader) :
  index msgTypes tag = None ->
  ReadMsg (hi :: lo :: tag :: rest)
  = ((Some (ErrCannotDeserialize tag), tag, None), rest).
Proof.
  intros Hreg. unfold ReadMsg, bind.
  rewrite binary_Read_2, readByte_cons, Hreg. reflexivity.
Qed.

(* ------------------------------------------------------------------ *)
(** ** Field values that survive the wire *)

Lemma u32_small (z : Z) : 0 <= z < 4294967296 -> u32 z = z.
Proof. intros H. unfold u32. apply Z.mod_small. exact H. Qed.

Lemma u32_idem (z : Z) : u32 (u32 z) = u32 z.
Proof. unfold u32. apply Z.mod_mod. lia. Qed.

Lemma i32_u32 (i : Z) : - 2147483648 <= i < 2147483648 -> i32 (u32 i) = i.
Proof.
  intros H. unfold i32, u32.
  rewrite Zplus_mod_idemp_l, Z.mod_small by lia. lia.
Qed.

Lemma write_byte_nil (b : byte) : binary_Write 1 [] (Z_of_byte b) = [b].
Proof. unfold binary_Write. cbn [app]. apply PutBigEndian_1. Qed.

Lemma read_write (v : value) (w : writable) (r : Reader) :
  as_writable v = Some w ->
  in_domain v ->
  read (kind_of v) (write w [] ++ r)
  = ((v, Z.of_nat (List.length (write w []))), r).
Proof.
  intros Hw Hd.
  destruct v; cbn [as_writable] in Hw; inversion Hw; subst w; clear Hw;
    cbn [kind_of read write in_domain] in *;
    unfold Cmd_read, Small_read, Op_read, LimitType_read, GameType_read,
      Cmd_write, Small_write, Op_write, LimitType_write, GameType_write, bind;
    rewrite ?write_byte_nil; cbn [app];
    rewrite ?readByte_cons; try reflexivity.
  - (* Text *)
    unfold Text_read, bind. rewrite readString_write by lia. unfold ret.
    rewrite Text_write_nil. cbn [List.length]. rewrite string_length_bytes.
    unfold u8. rewrite Z.mod_small, u16_small by lia.
    do 2 f_equal. lia.
  - (* Big *)
    unfold Big_read, Big_write, binary_Write, bind. cbn [app].
    rewrite readInt_Put, u32_small by exact Hd. reflexivity.
  - (* Amount *)
    unfold Amount_read, Amount_write, Big_write, binary_Write, bind.
    cbn [app]. rewrite readInt_Put. unfold uint32_of_f32 at 1.
    rewrite u32_idem. fold (uint32_of_f32 (f32_mul a hundred)).
    fold (hundredths (uint32_of_f32 (f32_mul a hundred))).
    unfold amount_exact in Hd. rewrite Hd. reflexivity.
  - (* Id *)
    unfold Id_read, Id_write, binary_Write, bind. cbn [app].
    rewrite readInt_Put, i32_u32 by exact Hd. reflexivity.
Qed.

Lemma write_length (v : value) (w : writable) :
  as_writable v = Some w ->
  in_domain v ->
  (List.length (write w []) <= 256)%nat.
Proof.
  intros Hw Hd.
  destruct v; cbn [as_writable] in Hw; inversion Hw; subst w; clear Hw;
    cbn [write in_domain] in *;
    unfold Cmd_write, Small_write, Op_write, LimitType_write, GameType_write,
      Amount_write, Big_write, Id_write, binary_Write;
    rewrite ?Text_write_nil; cbn [app List.length];
    rewrite ?PutBigEndian_length, ?string_length_bytes; lia.
Qed.

Lemma decode_fields_encode (vs : list value) (ws : list writable)
    (r : Reader) :
  as_writables vs = Some ws ->
  Forall in_domain vs ->
  decode_fields (map kind_of vs) (encode ws ++ r)
  = ((vs, Z.of_nat (List.length (encode ws))), r)
  /\ (List.length (encode ws) <= 256 * List.length vs)%nat.
Proof.
  revert ws. induction vs as [| v vs IH]; intros ws Hws Hd.
  - inversion Hws; subst ws. split; [reflexivity | simpl; lia].
  - cbn [as_writables] in Hws.
    destruct (as_writable v) as [w |] eqn:Ew; [| discriminate].
    destruct (as_writables vs) as [ws' |] eqn:Ews; [| discriminate].
    inversion Hws; subst ws; clear Hws.
    inversion Hd as [| ? ? Hv Hvs]; subst.
    destruct (IH ws' eq_refl Hvs) as [IHd IHl].
    pose proof (write_length v w Ew Hv) as Hl.
    unfold encode in *. cbn [flat_map map decode_fields]. unfold bind.
    rewrite <- app_assoc, (read_write v w _ Ew Hv), IHd. unfold ret.
    rewrite length_app. split; [| cbn [List.length]; lia].
    do 2 f_equal. lia.
Qed.

Lemma field_count (typ : MsgType) : (List.length (field_kinds typ) <= 10)%nat.
Proof. destruct typ; cbn; lia. Qed.

Lemma length_prefix (n : Z) :
  0 <= n < 65536 ->
  exists hi lo : byte,
    PutBigEndian 2 n = [hi; lo] /\ 256 * Z_of_byte hi + Z_of_byte lo = n.
Proof.
  intros Hn. exists (byte_of_Z (Z.shiftr n 8)), (byte_of_Z (Z.shiftr n 0)).
  split; [reflexivity |].
  rewrite <- BigEndian_2.
  change [byte_of_Z (Z.shiftr n 8); byte_of_Z (Z.shiftr n 0)]
    with (PutBigEndian 2 n).
  rewrite BigEndian_Put. apply Z.mod_small. exact Hn.
Qed.

(* ------------------------------------------------------------------ *)
(** ** How far a decoder advances the source *)

Lemma u8_le (z : Z) : 0 <= z -> 0 <= u8 z <= z.
Proof.
  intros H. unfold u8. split; [apply Z.mod_pos_bound; lia |].
  apply Z.mod_le; lia.
Qed.

Lemma u16_le (z : Z) : 0 <= z -> 0 <= u16 z <= z.
Proof.
  intros H. unfold u16. split; [apply Z.mod_pos_bound; lia |].
  apply Z.mod_le; lia.
Qed.

Lemma byte_read_advances {A : Type} (f : byte -> A) (r : Reader) :
  advances (('(x, n) <- (c <- readByte ;; ret (c, 1)) ;; ret (f x, n)) r) r.
Proof.
  unfold bind, ret. pose proof (readByte_skipn r) as H.
  destruct (readByte r) as [c r']. exists 1%nat. cbn [fst snd] in *.
  split; [exact H | lia].
Qed.

Lemma int_read_advances {A B : Type} (g : Z -> B) (f : B -> A) (r : Reader) :
  advances (('(x, n) <- (c <- readInt ;; ret (g c, 4)) ;; ret (f x, n)) r) r.
Proof.
  unfold bind, ret. pose proof (readInt_skipn r) as H.
  destruct (readInt r) as [c r']. exists 4%nat. cbn [fst snd] in *.
  split; [exact H | lia].
Qed.

Lemma readString_advances (r : Reader) : advances (readString r) r.
Proof.
  unfold readString, bind. rewrite binary_Read_1.
  destruct r as [| b r'].
  - exists 1%nat. cbn. split; [reflexivity | lia].
  - pose proof (Z_of_byte_range b) as Hb.
    exists (S (Z.to_nat (Z_of_byte b))).
    unfold io_ReadFull, ret. cbn [fst snd skipn]. split; [reflexivity |].
    pose proof (u8_le (Z_of_byte b + 1)) as H8.
    pose proof (u16_le (u8 (Z_of_byte b + 1))) as H16. lia.
Qed.

Lemma Cards_read_loop_skipn (n : nat) (r : Reader) :
  snd (Cards_read_loop n r) = skipn (2 * n) r.
Proof.
  revert r. induction n as [| n IH]; intros r; [reflexivity |].
  cbn [Cards_read_loop]. unfold bind.
  pose proof (readByte_skipn r) as H1.
  destruct (readByte r) as [s r1]. cbn [snd] in H1.
  pose proof (readByte_skipn r1) as H2.
  destruct (readByte r1) as [t r2]. cbn [snd] in H2.
  specialize (IH r2). destruct (Cards_read_loop n r2) as [v r3].
  unfold ret. cbn [snd] in *. subst r1 r2. rewrite IH, !skipn_skipn.
  f_equal. lia.
Qed.

Lemma Cards_read_advances (r : Reader) : advances (Cards_read r) r.
Proof.
  unfold Cards_read, bind.
  pose proof (readByte_skipn r) as H1.
  destruct (readByte r) as [n r1]. cbn [snd] in H1.
  pose proof (Cards_read_loop_skipn (Z.to_nat (Z_of_byte n)) r1) as H2.
  destruct (Cards_read_loop (Z.to_nat (Z_of_byte n)) r1) as [v r2].
  cbn [snd] in H2. unfold ret.
  pose proof (Z_of_byte_range n) as Hn.
  exists (2 * Z.to_nat (Z_of_byte n) + 1)%nat. cbn [fst snd]. split.
  - subst r1 r2. apply skipn_skipn.
  - pose proof (u16_le (2 * Z_of_byte n)) as Ha.
    pose proof (u16_le (u16 (2 * Z_of_byte n) + 1)) as Hb. lia.
Qed.

Lemma read_advances (k : Kind) (r : Reader) : advances (read k r) r.
Proof.
  destruct k; cbn [read];
    try (apply (byte_read_advances _ r)).
  - (* Text *)
    unfold Text_read, bind, ret.
    destruct (readString_advances r) as [m Hm].
    destruct (readString r) as [[s l] r']. exists m. exact Hm.
  - (* Big *) apply (int_read_advances (fun b => b) VBig r).
  - (* Amount *)
    apply (int_read_advances (fun n => f32_div (f32_of_Z n) hundred) VAmount r).
  - (* Id *) apply (int_read_advances i32 VId r).
  - (* Cards *)
    unfold bind, ret.
    destruct (Cards_read_advances r) as [m Hm].
    destruct (Cards_read r) as [[v l] r']. exists m. exact Hm.
Qed.

Lemma decode_fields_advances (fs : list Kind) (r : Reader) :
  advances (decode_fields fs r) r.
Proof.
  revert r. induction fs as [| k fs IH]; intros r.
  - exists 0%nat. cbn. split; [reflexivity | lia].
  - cbn [decode_fields]. unfold bind.
    destruct (read_advances k r) as [m1 [H1 B1]].
    destruct (read k r) as [[x n] r1]. cbn [fst snd] in H1, B1.
    destruct (IH r1) as [m2 [H2 B2]].
    destruct (decode_fields fs r1) as [[xs m] r2]. cbn [fst snd] in H2, B2.
    unfold ret. exists (m2 + m1)%nat. cbn [fst snd]. split.
    + subst r1 r2. apply skipn_skipn.
    + lia.
Qed.

(* ------------------------------------------------------------------ *)
(** ** Facts about the registry *)

Lemma index_In (m : list (Cmd * MsgType)) (c : Cmd) (t : MsgType) :
  index m c = Some t -> In t (map snd m).
Proof.
  induction m as [| [k t'] m IH]; unfold index; fold index;
    cbn [map snd In]; [discriminate |].
  destruct (Byte.eqb k c).
  - intros H. inversion H. left. reflexivity.
  - intros H. right. apply IH. exact H.
Qed.

Lemma MsgPlayerInfo_unregistered (c : Cmd) :
  index msgTypes c <> Some MsgPlayerInfo.
Proof.
  intros H. apply index_In in H. cbn in H.
  repeat (destruct H as [H | H]; [discriminate |]). exact H.
Qed.

(** What [ReadMsg] can return: a message only of the registered shape of
    the tag, and never the short-frame error. *)
Lemma ReadMsg_cases (r : Reader) :
  (exists e, fst (ReadMsg r) = (Some (ErrIO e), x00, None)
             /\ (List.length r < 2)%nat)
  \/ (exists c, fst (ReadMsg r) = (Some (ErrCannotDeserialize c), c, None)
                /\ index msgTypes c = None /\ (2 <= List.length r)%nat)
  \/ (exists c, fst (ReadMsg r) = (Some (ErrTooLong c), c, None)
                /\ (2 <= List.length r)%nat)
  \/ (exists c typ xs, fst (ReadMsg r) = (None, c, Some (mkMsg typ xs))
                       /\ index msgTypes c = Some typ
                       /\ (2 <= List.length r)%nat).
Proof.
  destruct r as [| hi [| lo r]].
  - left. exists EOF. split; [reflexivity | simpl; lia].
  - left. exists ErrUnexpectedEOF. split; [reflexivity | simpl; lia].
  - right. unfold ReadMsg, bind. rewrite binary_Read_2.
    assert (Hlen : (2 <= List.length (hi :: lo :: r))%nat) by (simpl; lia).
    destruct (readByte r) as [c r1].
    destruct (index msgTypes c) as [typ |] eqn:Hreg.
    + right. rewrite read_fields_spec by apply u16_range.
      destruct (decode_fields (field_kinds typ) r1) as [[xs m] r2].
      destruct (u16 (u16 (256 * Z_of_byte hi + Z_of_byte lo - 1) - m) >? 0).
      * left. exists c. split; [reflexivity | exact Hlen].
      * right. exists c, typ, xs. cbn [app]. repeat split; assumption.
    + left. exists c. repeat split; assumption.
Qed.

Lemma ReadMsg_never_too_short (r : Reader) (c : Cmd) :
  fst (fst (fst (ReadMsg r))) <> Some (ErrTooShort c).
Proof.
  destruct (ReadMsg_cases r)
    as [[e [H _]] | [[d [H _]] | [[d [H _]] | [d [typ [xs [H _]]]]]]];
    rewrite H; cbn; discriminate.
Qed.

(* ------------------------------------------------------------------ *)
(** ** Round trip of a frame *)

(** C1 (as amended): for every command tag registered in [msgTypes] whose
    shape has only fields of types with a [write] method, and every message
    instance of that shape whose integers are inside the range of their
    type, whose texts have 0 to 254 bytes and whose amounts the amount codec
    reproduces, [writeMessage] followed by [ReadMsg] succeeds, yields the
    same tag and an instance equal to the original, and leaves the source
    at the end of the frame. *)
Theorem roundtrip_writable_shapes (c : Cmd) (typ : MsgType)
    (vs : list value) (ws : list writable) (rest : Reader) :
  index msgTypes c = Some typ ->
  map kind_of vs = field_kinds typ ->
  Forall in_domain vs ->
  as_writables (VCmd c :: vs) = Some ws ->
  ReadMsg (writeMessage [] ws ++ rest)
  = ((None, c, Some (mkMsg typ vs)), rest).
Proof.
  intros Hreg Hshape Hdom Hws.
  cbn [as_writables as_writable] in Hws.
  destruct (as_writables vs) as [ws' |] eqn:Ews; [| discriminate].
  inversion Hws; subst ws; clear Hws.
  destruct (decode_fields_encode vs ws' rest Ews Hdom) as [Hdec Hlen].
  assert (Hn : (List.length vs <= 10)%nat).
  { rewrite <- (length_map kind_of), Hshape. apply field_count. }
  rewrite writeMessage_eq. cbn [app].
  assert (Henc : encode (WCmd c :: ws') = c :: encode ws').
  { unfold encode. cbn [flat_map write]. unfold Cmd_write.
    rewrite write_byte_nil. reflexivity. }
  rewrite Henc. cbn [List.length].
  set (L := Z.of_nat (S (List.length (encode ws')))).
  assert (HL : 0 <= L < 65536) by (unfold L; lia).
  rewrite (u16_small L HL).
  destruct (length_prefix L HL) as [hi [lo [Hput Hval]]].
  rewrite Hput. cbn [app].
  rewrite (ReadMsg_frame hi lo c _ typ Hreg), <- Hshape, Hdec, Hval.
  replace (L - (1 + Z.of_nat (List.length (encode ws')))) with 0
    by (unfold L; lia).
  reflexivity.
Qed.

Lemma roundtrip_writable_shapes_witness :
  ReadMsg
    (writeMessage []
       [WCmd GAME_INFO; WId 7; WText "Test Table"; WGameType GT_TEXAS_HOLDEM;
        WLimitType x02; WAmount (hundredths 1999); WAmount (hundredths 2500);
        WBig 6; WBig 2; WBig 1; WBig 0] ++ [])
  = ((None, GAME_INFO,
      Some (mkMsg MsgGameInfo
              [VId 7; VText "Test Table"; VGameType GT_TEXAS_HOLDEM;
               VLimitType x02; VAmount (hundredths 1999);
               VAmount (hundredths 2500); VBig 6; VBig 2; VBig 1; VBig 0])),
     []).
Proof.
  apply (roundtrip_writable_shapes GAME_INFO MsgGameInfo).
  - reflexivity.
  - reflexivity.
  - repeat constructor; cbn; try lia; vm_compute; reflexivity.
  - reflexivity.
Defined.

(** C1 (as stated) fails: a registered shape with a field type that has no
    [write] method cannot be handed to [writeMessage] at all, and an amount
    of 53 hundredths comes back from the wire as 52 hundredths. *)
Lemma roundtrip_counterexample :
  index msgTypes GAME_STAGE = Some MsgGameStage
  /\ map kind_of [VId 1; VGameStage GS_FLOP] = field_kinds MsgGameStage
  /\ as_writables [VCmd GAME_STAGE; VId 1; VGameStage GS_FLOP] = None
  /\ index msgTypes BALANCE = Some MsgBalance
  /\ map kind_of [VAmount (hundredths 53); VAmount (hundredths 1999)]
     = field_kinds MsgBalance
  /\ as_writables
       [VCmd BALANCE; VAmount (hundredths 53); VAmount (hundredths 1999)]
     = Some [WCmd BALANCE; WAmount (hundredths 53); WAmount (hundredths 1999)]
  /\ ReadMsg
       (writeMessage []
          [WCmd BALANCE; WAmount (hundredths 53); WAmount (hundredths 1999)])
     = ((None, BALANCE,
         Some (mkMsg MsgBalance
                 [VAmount (hundredths 52); VAmount (hundredths 1999)])), [])
  /\ hundredths 52 <> hundredths 53.
Proof.
  repeat split; try (vm_compute; reflexivity).
  vm_compute. discriminate.
Qed.

(* ------------------------------------------------------------------ *)
(** ** Short frames *)

(** C2: a frame tagged YOU_ARE (one 4-byte field) that declares a length of
    3, followed by a second frame.  The counter, being unsigned, wraps
    instead of going negative: [ReadMsg] reads into the next frame and then
    reports the long-frame error, not the short-frame error. *)
Theorem short_frame_reported_too_long :
  ReadMsg [x00; x03; x1f; x00; x00;
           x00; x05; x1f; x00; x00; x00; x07]
  = ((Some (ErrTooLong YOU_ARE), YOU_ARE, None),
     [x1f; x00; x00; x00; x07]).
Proof. vm_compute. reflexivity. Qed.

(* ------------------------------------------------------------------ *)
(** ** Amounts *)

(** C3: the amount 19.99 comes back exactly, but the amount 0.53 (the
    float32 8891924 * 2^-24) is written as 52 hundredths and comes back as
    0.52, and the round trip is not idempotent: 1.06 comes back as 1.05,
    which comes back as 1.04. *)
Theorem amount_roundtrip_loses_a_hundredth :
  amount_roundtrip (hundredths 1999) = hundredths 1999
  /\ hundredths 53 = S754_finite false 8891924 (-24)
  /\ Amount_write (hundredths 53) [] = [x00; x00; x00; x34]
  /\ Amount_read [x00; x00; x00; x34] = ((hundredths 52, 4), [])
  /\ amount_roundtrip (hundredths 53) = hundredths 52
  /\ hundredths 52 <> hundredths 53
  /\ amount_roundtrip (hundredths 106) = hundredths 105
  /\ amount_roundtrip (amount_roundtrip (hundredths 106)) = hundredths 104
  /\ hundredths 104 <> hundredths 105.
Proof.
  repeat split; try (vm_compute; reflexivity); vm_compute; discriminate.
Qed.

(* ------------------------------------------------------------------ *)
(** ** Texts of 255 bytes *)

(** C4: a NOTIFY_CHAT message whose text has exactly 255 bytes.  The text
    itself is read back unchanged, but [readString] reports 0 consumed bytes
    for it (the sum [size + 1] is taken in [uint8]), so the accounting of
    [ReadMsg] is 256 bytes off the declared length and the frame is refused
    as too long. *)
Theorem text_255_frame_refused :
  String.length (text_of_length 255) = 255%nat
  /\ readString (Text_write (text_of_length 255) [])
     = ((text_of_length 255, 0), [])
  /\ ReadMsg
       (writeMessage []
          [WCmd NOTIFY_CHAT; WId 1; WId 2; WText (text_of_length 255)])
     = ((Some (ErrTooLong NOTIFY_CHAT), NOTIFY_CHAT, None), []).
Proof.
  repeat split; vm_compute; reflexivity.
Qed.

(* ------------------------------------------------------------------ *)
(** ** The login scenario *)

(** C5 (as amended): [WriteLogin] with nick "alice" and password "secret"
    produces exactly the bytes 00 0E 01 05 61 6C 69 63 65 06 73 65 63 72 65
    74: a 2-byte length of 14 (one tag byte, six bytes for "alice", seven
    for "secret"), the tag 1 and the two length-prefixed texts.  [ReadMsg]
    on these bytes yields the tag LOGIN together with the unknown-command
    error, since LOGIN has no entry in the registry, and leaves the thirteen
    field bytes unread; the text decoder applied twice to them recovers both
    texts unchanged. *)
Theorem login_scenario :
  WriteLogin [] "alice" "secret" = login_frame
  /\ ReadMsg login_frame
     = ((Some (ErrCannotDeserialize LOGIN), LOGIN, None),
        skipn 3 login_frame)
  /\ ('(nick, n) <- Text_read ;; '(pass, m) <- Text_read ;;
      ret (nick, pass, n + m)) (skipn 3 login_frame)
     = (("alice", "secret", 13), []).
Proof.
  repeat split; vm_compute; reflexivity.
Qed.

(** C5 (as stated) fails: the length prefix written is 14, not 13, and
    decoding the sequence with the prefix 13 produces the unknown-command
    error and no message instance, so [ReadMsg] recovers no text field. *)
Lemma login_frame_as_stated_fails :
  WriteLogin [] "alice" "secret" <> login_frame_13
  /\ index msgTypes LOGIN = None
  /\ ReadMsg login_frame_13
     = ((Some (ErrCannotDeserialize LOGIN), LOGIN, None),
        skipn 3 login_frame_13).
Proof.
  repeat split; try (vm_compute; reflexivity). vm_compute. discriminate.
Qed.

(* ------------------------------------------------------------------ *)
(** ** Unknown tags *)

(** C6 (as amended): for every frame whose command tag has no entry in the
    registry, [ReadMsg] fails with the unknown-command error carrying that
    tag, and leaves the source right after the tag byte: whatever the
    declared length, none of the bytes after the tag is consumed. *)
Theorem unknown_tag_error_after_tag (hi lo tag : byte) (rest : Reader) :
  index msgTypes tag = None ->
  ReadMsg (hi :: lo :: tag :: rest)
  = ((Some (ErrCannotDeserialize tag), tag, None), rest).
Proof.
  intros Hreg. unfold ReadMsg, bind.
  rewrite binary_Read_2, readByte_cons, Hreg. reflexivity.
Qed.

Lemma unknown_tag_error_after_tag_witness :
  ReadMsg (x00 :: x03 :: LOGOUT :: [xaa; xbb; x00; x05; x1f])
  = ((Some (ErrCannotDeserialize LOGOUT), LOGOUT, None),
     [xaa; xbb; x00; x05; x1f]).
Proof.
  apply (unknown_tag_error_after_tag x00 x03 LOGOUT). reflexivity.
Defined.

(** C6 (as stated) fails: a frame of declared length 3 with the unregistered
    tag LOGIN and two more bytes, followed by a second frame.  After the
    failed call the source still holds the two bytes of the refused frame;
    it is not at the start of the second frame. *)
Lemma unknown_tag_frame_not_skipped :
  index msgTypes LOGIN = None
  /\ snd (ReadMsg [x00; x03; x01; xaa; xbb;
                   x00; x05; x1f; x00; x00; x00; x07])
     = [xaa; xbb; x00; x05; x1f; x00; x00; x00; x07]
  /\ snd (ReadMsg [x00; x03; x01; xaa; xbb;
                   x00; x05; x1f; x00; x00; x00; x07])
     <> skipn (2 + 3) [x00; x03; x01; xaa; xbb;
                       x00; x05; x1f; x00; x00; x00; x07].
Proof.
  repeat split; try (vm_compute; reflexivity). vm_compute. discriminate.
Qed.

(* ------------------------------------------------------------------ *)
(** ** Texts longer than 255 bytes *)

(** C7 (as amended): encoding a text never fails.  [Text.write] emits one
    prefix byte holding the byte length of the text modulo 256, followed by
    all the bytes of the text, none dropped; the prefix equals the length
    of the payload exactly when the text has at most 255 bytes. *)
Theorem Text_write_prefix_mod_256 (t : Text) (w : Writer) :
  exists p : byte,
    Text_write t w = w ++ p :: list_byte_of_string t
    /\ Z_of_byte p = Z.of_nat (String.length t) mod 256
    /\ (Z_of_byte p = Z.of_nat (String.length t)
        <-> (String.length t <= 255)%nat).
Proof.
  exists (byte_of_Z (Z.of_nat (String.length t))).
  assert (Hp : Z_of_byte (byte_of_Z (Z.of_nat (String.length t)))
               = Z.of_nat (String.length t) mod 256)
    by apply Z_of_byte_of_Z.
  split; [| split; [exact Hp |]].
  - change (Text_write t w) with (write (WText t) w).
    rewrite write_app. cbn [write]. rewrite Text_write_nil. reflexivity.
  - rewrite Hp. split; intros H.
    + pose proof (Z.mod_pos_bound (Z.of_nat (String.length t)) 256). lia.
    + apply Z.mod_small. lia.
Qed.

(** C7 (as stated) fails: a CHAT message with a text of 256 bytes is
    encoded without any failure; the frame declares 258 bytes, the prefix of
    the text says 0 and all 256 bytes follow it. *)
Lemma long_text_written_with_prefix_zero :
  String.length (text_of_length 256) = 256%nat
  /\ Text_write (text_of_length 256) [] = x00 :: repeat x61 256
  /\ writeMessage [] [WCmd CHAT; WText (text_of_length 256)]
     = [x01; x02; x0c; x00] ++ repeat x61 256.
Proof.
  repeat split; vm_compute; reflexivity.
Qed.

(* ------------------------------------------------------------------ *)
(** ** Long frames *)

(** C8: for every frame with a registered tag that is wholly in the source
    and whose declared length exceeds the tag byte plus the bytes its
    fields consume, [ReadMsg] decodes all the fields and then fails with
    the long-frame error, returning no message. *)
Theorem long_frame_rejected (hi lo tag : byte) (typ : MsgType)
    (rest : Reader) :
  index msgTypes tag = Some typ ->
  256 * Z_of_byte hi + Z_of_byte lo - 1 <= Z.of_nat (List.length rest) ->
  1 + Z.of_nat (consumed (field_kinds typ) rest)
    < 256 * Z_of_byte hi + Z_of_byte lo ->
  ReadMsg (hi :: lo :: tag :: rest)
  = ((Some (ErrTooLong tag), tag, None),
     snd (decode_fields (field_kinds typ) rest)).
Proof.
  intros Hreg Hwhole Hlong.
  rewrite (ReadMsg_frame hi lo tag rest typ Hreg).
  unfold consumed in Hlong.
  destruct (decode_fields_advances (field_kinds typ) rest) as [k [Hk Hm]].
  destruct (decode_fields (field_kinds typ) rest) as [[xs m] r'].
  cbn [fst snd] in *. subst r'. rewrite length_skipn in Hlong.
  pose proof (Z_of_byte_range hi) as Hhi.
  pose proof (Z_of_byte_range lo) as Hlo.
  rewrite u16_small by lia.
  destruct (Z.gtb_spec (256 * Z_of_byte hi + Z_of_byte lo - (1 + m)) 0)
    as [_ | Hle]; [reflexivity | lia].
Qed.

Lemma long_frame_rejected_witness :
  ReadMsg (x00 :: x07 :: YOU_ARE :: [x00; x00; x00; x05; xaa; xbb])
  = ((Some (ErrTooLong YOU_ARE), YOU_ARE, None), [xaa; xbb]).
Proof.
  apply (long_frame_rejected x00 x07 YOU_ARE MsgYouAre
           [x00; x00; x00; x05; xaa; xbb]).
  - reflexivity.
  - vm_compute. discriminate.
  - vm_compute. reflexivity.
Defined.

(* ------------------------------------------------------------------ *)
(** ** Failures of the source *)

(** C9 (as amended): a failure of the source while the 2-byte length prefix
    is read is propagated verbatim and ends the call: [ReadMsg] returns
    that error and no message.  No other read reports a failure: once the
    prefix has been read, [ReadMsg] never returns a source error. *)
Theorem io_failure_only_from_length_prefix (r : Reader) :
  ((List.length r < 2)%nat ->
   ReadMsg r
   = ((Some (ErrIO (match r with [] => EOF | _ :: _ => ErrUnexpectedEOF end)),
       x00, None), []))
  /\ ((2 <= List.length r)%nat ->
      forall e, fst (fst (fst (ReadMsg r))) <> Some (ErrIO e)).
Proof.
  split.
  - intros Hlen. unfold ReadMsg, bind.
    rewrite (binary_Read_short r Hlen). reflexivity.
  - intros Hlen e.
    destruct (ReadMsg_cases r)
      as [[e' [_ H]] | [[d [H _]] | [[d [H _]] | [d [typ [xs [H _]]]]]]];
      [lia | | |]; rewrite H; cbn; discriminate.
Qed.

Lemma io_failure_only_from_length_prefix_witness :
  ReadMsg [x00] = ((Some (ErrIO ErrUnexpectedEOF), x00, None), [])
  /\ fst (fst (fst (ReadMsg [x00; x05; x1f; x2a]))) <> Some (ErrIO EOF).
Proof.
  split.
  - apply (proj1 (io_failure_only_from_length_prefix [x00])). simpl. lia.
  - apply (proj2 (io_failure_only_from_length_prefix [x00; x05; x1f; x2a])).
    simpl. lia.
Defined.

(** C9 (as stated) fails: a YOU_ARE frame of declared length 5 of which the
    source holds a single field byte.  The read of the 4-byte field comes
    up short (it fails with ErrUnexpectedEOF and consumes the byte), yet
    [ReadMsg] returns no error and a populated message with the field 0. *)
Lemma truncated_frame_decoded :
  binary_Read 4 [x2a] = ((Some ErrUnexpectedEOF, 0), [])
  /\ ReadMsg [x00; x05; x1f; x2a]
     = ((None, YOU_ARE, Some (mkMsg MsgYouAre [VId 0])), []).
Proof.
  split; vm_compute; reflexivity.
Qed.

(* ------------------------------------------------------------------ *)
(** ** PLAYER_INFO *)

(** C10: the tag PLAYER_INFO (19) has the declared shape MsgPlayerInfo but
    no entry in the registry: every frame tagged PLAYER_INFO is refused
    with the unknown-command error, and no call of [ReadMsg] ever produces
    a MsgPlayerInfo instance. *)
Theorem player_info_never_decoded :
  Z_of_byte PLAYER_INFO = 19
  /\ field_kinds MsgPlayerInfo = [KId; KAmount; KText; KText]
  /\ index msgTypes PLAYER_INFO = None
  /\ (forall (hi lo : byte) (rest : Reader),
         ReadMsg (hi :: lo :: PLAYER_INFO :: rest)
         = ((Some (ErrCannotDeserialize PLAYER_INFO), PLAYER_INFO, None),
            rest))
  /\ (forall (r : Reader) (vs : list value),
         snd (fst (ReadMsg r)) <> Some (mkMsg MsgPlayerInfo vs)).
Proof.
  split; [reflexivity |]. split; [reflexivity |]. split; [reflexivity |].
  split.
  - intros hi lo rest. apply ReadMsg_unregistered. reflexivity.
  - intros r vs.
    destruct (ReadMsg_cases r)
      as [[e [H _]] | [[d [H _]] | [[d [H _]] | [d [typ [xs [H [Hreg _]]]]]]]];
      rewrite H; cbn [fst snd]; try discriminate.
    intros Heq. inversion Heq; subst.
    exact (MsgPlayerInfo_unregistered d Hreg).
Qed.

(* ------------------------------------------------------------------ *)
(** ** What the decoders produce *)

Lemma BigEndian_bound_fold (bs : list byte) (acc : Z) (k : nat) :
  0 <= acc < 2 ^ (8 * Z.of_nat k) ->
  0 <= fold_left (fun a b => Z.lor (Z.shiftl a 8) (Z_of_byte b)) bs acc
    < 2 ^ (8 * Z.of_nat (k + List.length bs)).
Proof.
  revert acc k. induction bs as [| b bs IH]; intros acc k Hacc.
  - cbn [fold_left List.length]. rewrite Nat.add_0_r. exact Hacc.
  - cbn [fold_left List.length]. rewrite lor_shiftl_byte.
    replace (k + S (List.length bs))%nat with (S k + List.length bs)%nat
      by lia.
    apply IH. pose proof (Z_of_byte_range b) as Hb.
    replace (8 * Z.of_nat (S k)) with (8 * Z.of_nat k + 8) by lia.
    rewrite Z.pow_add_r by lia. change (2 ^ 8) with 256. lia.
Qed.

Lemma BigEndian_bound (bs : list byte) :
  0 <= BigEndian bs < 2 ^ (8 * Z.of_nat (List.length bs)).
Proof.
  unfold BigEndian. apply (BigEndian_bound_fold bs 0 0). simpl. lia.
Qed.

Lemma io_ReadFull_length (n : nat) (r : Reader) :
  List.length (fst (fst (io_ReadFull n r))) = n.
Proof.
  unfold io_ReadFull. cbn [fst]. rewrite length_app, repeat_length.
  pose proof (firstn_le_length n r). lia.
Qed.

Lemma binary_Read_bound (n : nat) (r : Reader) :
  0 <= snd (fst (binary_Read n r)) < 2 ^ (8 * Z.of_nat n).
Proof.
  unfold binary_Read, bind.
  pose proof (io_ReadFull_length n r) as Hlen.
  destruct (io_ReadFull n r) as [[bs err] r']. cbn [fst] in Hlen.
  destruct err as [e |]; unfold ret; cbn [fst snd].
  - split; [lia | apply Z.pow_pos_nonneg; lia].
  - rewrite <- Hlen. apply BigEndian_bound.
Qed.

Lemma readInt_bound (r : Reader) : 0 <= fst (readInt r) < 4294967296.
Proof.
  unfold readInt, bind. pose proof (binary_Read_bound 4 r) as H.
  destruct (binary_Read 4 r) as [[e d] r']. exact H.
Qed.

Lemma i32_range (z : Z) : - 2147483648 <= i32 z < 2147483648.
Proof.
  unfold i32. pose proof (Z.mod_pos_bound (z + 2147483648) 4294967296). lia.
Qed.

Lemma string_of_list_byte_length (l : list byte) :
  String.length (string_of_list_byte l) = List.length l.
Proof.
  rewrite <- string_length_bytes, list_byte_of_string_of_list_byte.
  reflexivity.
Qed.

(** [readString] returns a text of exactly as many bytes as the size byte
    announces, and reports at most 255. *)
Lemma readString_length (r : Reader) :
  String.length (fst (fst (readString r)))
  = match r with [] => 0%nat | b :: _ => Z.to_nat (Z_of_byte b) end
  /\ 0 <= snd (fst (readString r)) <= 255.
Proof.
  unfold readString, bind. rewrite binary_Read_1.
  assert (Hrep : forall size, 0 <= u16 (u8 (size + 1)) <= 255).
  { intros size. pose proof (Z.mod_pos_bound (size + 1) 256) as H8.
    unfold u8. pose proof (u16_le ((size + 1) mod 256)). lia. }
  destruct r as [| b r'].
  - cbn. split; [reflexivity | lia].
  - pose proof (io_ReadFull_length (Z.to_nat (Z_of_byte b)) r') as Hlen.
    destruct (io_ReadFull (Z.to_nat (Z_of_byte b)) r') as [[bs err] r2].
    unfold ret. cbn [fst snd] in *.
    rewrite string_of_list_byte_length. split; [exact Hlen | apply Hrep].
Qed.

Lemma Cards_read_loop_length (n : nat) (r : Reader) :
  List.length (fst (Cards_read_loop n r)) = n.
Proof.
  revert r. induction n as [| n IH]; intros r; [reflexivity |].
  cbn [Cards_read_loop]. unfold bind.
  destruct (readByte r) as [s r1]. destruct (readByte r1) as [t r2].
  specialize (IH r2). destruct (Cards_read_loop n r2) as [v r3].
  unfold ret. cbn [fst List.length] in *. lia.
Qed.

Lemma Cards_read_count (r : Reader) :
  Z.of_nat (List.length (fst (fst (Cards_read r))))
  = Z_of_byte (fst (readByte r))
  /\ snd (fst (Cards_read r)) = 2 * Z_of_byte (fst (readByte r)) + 1.
Proof.
  unfold Cards_read, bind. destruct (readByte r) as [n r1].
  pose proof (Cards_read_loop_length (Z.to_nat (Z_of_byte n)) r1) as Hlen.
  destruct (Cards_read_loop (Z.to_nat (Z_of_byte n)) r1) as [v r2].
  unfold ret. cbn [fst snd] in *. pose proof (Z_of_byte_range n) as Hn.
  split; [lia |]. rewrite (u16_small (2 * Z_of_byte n)) by lia.
  apply u16_small. lia.
Qed.

Lemma read_sound (k : Kind) (r : Reader) :
  kind_of (fst (fst (read k r))) = k
  /\ decodable (fst (fst (read k r)))
  /\ 0 <= snd (fst (read k r)) <= 511.
Proof.
  destruct k; cbn [read];
    unfold Cmd_read, Small_read, Op_read, LimitType_read, PlayerState_read,
      GameStage_read, GameType_read, Seq_read, Suit_read, Big_read,
      Amount_read, Id_read, Text_read, bind, ret.
  all: try (destruct (readByte r) as [c r']; cbn; repeat split; lia).
  - (* Text *)
    pose proof (readString_length r) as [Hlen Hrep].
    destruct (readString r) as [[s l] r']. cbn [fst snd kind_of decodable] in *.
    repeat split; try lia. rewrite Hlen. destruct r as [| b r0]; [lia |].
    pose proof (Z_of_byte_range b). lia.
  - (* Big *)
    pose proof (readInt_bound r) as H. destruct (readInt r) as [b r'].
    cbn [fst snd kind_of decodable] in *. repeat split; lia.
  - (* Amount *)
    pose proof (readInt_bound r) as H. destruct (readInt r) as [b r'].
    cbn [fst snd kind_of decodable] in *. repeat split; try lia.
    exists b. split; [exact H | reflexivity].
  - (* Id *)
    destruct (readInt r) as [b r']. cbn [fst snd kind_of decodable].
    pose proof (i32_range b). repeat split; lia.
  - (* Cards *)
    pose proof (Cards_read_count r) as [Hlen Hrep].
    destruct (Cards_read r) as [[v l] r']. cbn [fst snd kind_of decodable] in *.
    pose proof (Z_of_byte_range (fst (readByte r))). repeat split; lia.
Qed.

Lemma decode_fields_sound (fs : list Kind) (r : Reader) :
  map kind_of (fst (fst (decode_fields fs r))) = fs
  /\ Forall decodable (fst (fst (decode_fields fs r)))
  /\ 0 <= snd (fst (decode_fields fs r)) <= 511 * Z.of_nat (List.length fs).
Proof.
  revert r. induction fs as [| k fs IH]; intros r.
  - cbn. repeat split; [constructor | lia | lia].
  - cbn [decode_fields]. unfold bind.
    pose proof (read_sound k r) as [Hk [Hd Hn]].
    destruct (read k r) as [[x n] r1]. cbn [fst snd] in Hk, Hd, Hn.
    destruct (IH r1) as [IHk [IHd IHn]].
    destruct (decode_fields fs r1) as [[xs m] r2]. unfold ret.
    cbn [fst snd map List.length] in *.
    repeat split; [congruence | constructor; assumption | lia | lia].
Qed.

(* ------------------------------------------------------------------ *)
(** ** Outcomes of [ReadMsg] *)

(** [ReadMsg] on a source that holds a length prefix, step by step. *)
Lemma ReadMsg_prefixed (hi lo : byte) (r0 : Reader) :
  ReadMsg (hi :: lo :: r0)
  = match index msgTypes (fst (readByte r0)) with
    | None =>
        ((Some (ErrCannotDeserialize (fst (readByte r0))),
          fst (readByte r0), None), snd (readByte r0))
    | Some typ =>
        let d := decode_fields (field_kinds typ) (snd (readByte r0)) in
        (if u16 (256 * Z_of_byte hi + Z_of_byte lo - (1 + snd (fst d))) >? 0
         then (Some (ErrTooLong (fst (readByte r0))), fst (readByte r0), None)
         else (None, fst (readByte r0), Some (mkMsg typ (fst (fst d)))),
         snd d)
    end.
Proof.
  unfold ReadMsg, bind. rewrite binary_Read_2.
  destruct (readByte r0) as [c r1]. cbn [fst snd].
  destruct (index msgTypes c) as [typ |]; [| reflexivity].
  rewrite read_fields_spec by apply u16_range.
  destruct (decode_fields (field_kinds typ) r1) as [[xs m] r2].
  rewrite u16_sub_sub. cbn [app fst snd]. unfold ret.
  destruct (u16 (256 * Z_of_byte hi + Z_of_byte lo - (1 + m)) >? 0);
    reflexivity.
Qed.

(** The counter cannot wrap back to zero: with at most ten fields of at most
    511 reported bytes each, it ends at zero only when the declared length
    is exactly one more than the bytes reported. *)
Lemma counter_zero_iff (D m : Z) :
  0 <= D < 65536 -> 0 <= m <= 5110 ->
  (u16 (D - (1 + m)) >? 0) = negb (D =? 1 + m).
Proof.
  intros HD Hm. destruct (Z.eqb_spec D (1 + m)) as [E | E]; cbn [negb].
  - subst D. replace (1 + m - (1 + m)) with 0 by lia. reflexivity.
  - destruct (Z.gtb_spec (u16 (D - (1 + m))) 0) as [_ | Hle]; [reflexivity |].
    exfalso. unfold u16 in Hle.
    destruct (Z.lt_ge_cases (D - (1 + m)) 0) as [Hneg | Hpos].
    + replace (D - (1 + m)) with ((D - (1 + m) + 65536) + (-1) * 65536)
        in Hle by lia.
      rewrite Z_mod_plus_full, Z.mod_small in Hle; lia.
    + rewrite Z.mod_small in Hle; lia.
Qed.

Lemma reported_bound (typ : MsgType) (r : Reader) :
  0 <= snd (fst (decode_fields (field_kinds typ) r)) <= 5110.
Proof.
  pose proof (decode_fields_sound (field_kinds typ) r) as [_ [_ H]].
  pose proof (field_count typ). lia.
Qed.

(** The round trip of a frame, for use in compositions. *)
Lemma frame_roundtrip (c : Cmd) (typ : MsgType) (vs : list value)
    (ws : list writable) (rest : Reader) :
  index msgTypes c = Some typ ->
  map kind_of vs = field_kinds typ ->
  Forall in_domain vs ->
  as_writables (VCmd c :: vs) = Some ws ->
  ReadMsg (writeMessage [] ws ++ rest)
  = ((None, c, Some (mkMsg typ vs)), rest).
Proof.
  intros Hreg Hshape Hdom Hws.
  cbn [as_writables as_writable] in Hws.
  destruct (as_writables vs) as [ws' |] eqn:Ews; [| discriminate].
  inversion Hws; subst ws; clear Hws.
  destruct (decode_fields_encode vs ws' rest Ews Hdom) as [Hdec Hlen].
  assert (Hn : (List.length vs <= 10)%nat).
  { rewrite <- (length_map kind_of), Hshape. apply field_count. }
  rewrite writeMessage_eq. cbn [app].
  assert (Henc : encode (WCmd c :: ws') = c :: encode ws').
  { unfold encode. cbn [flat_map write]. unfold Cmd_write.
    rewrite write_byte_nil. reflexivity. }
  rewrite Henc. cbn [List.length].
  set (L := Z.of_nat (S (List.length (encode ws')))).
  assert (HL : 0 <= L < 65536) by (unfold L; lia).
  rewrite (u16_small L HL).
  destruct (length_prefix L HL) as [hi [lo [Hput Hval]]].
  rewrite Hput. cbn [app].
  rewrite (ReadMsg_frame hi lo c _ typ Hreg), <- Hshape, Hdec, Hval.
  replace (L - (1 + Z.of_nat (List.length (encode ws')))) with 0
    by (unfold L; lia).
  reflexivity.
Qed.

Lemma writeMessage_app (w : Writer) (body : list writable) :
  writeMessage w body = w ++ writeMessage [] body.
Proof. rewrite !writeMessage_eq. reflexivity. Qed.

(** X1: [ReadMsg] returns a message exactly when it returns no error, and
    it never returns the short-frame error, whatever the source holds. *)
Theorem ReadMsg_error_xor_message (r : Reader) :
  (fst (fst (fst (ReadMsg r))) = None <-> snd (fst (ReadMsg r)) <> None)
  /\ (forall c, fst (fst (fst (ReadMsg r))) <> Some (ErrTooShort c)).
Proof.
  destruct (ReadMsg_cases r)
    as [[e [H _]] | [[d [H _]] | [[d [H _]] | [d [typ [xs [H _]]]]]]];
    rewrite H; cbn [fst snd]; (split; [split |]); try discriminate;
    try congruence.
Qed.

(** X2: on a source holding a length prefix [hi lo] and a registered tag,
    [ReadMsg] decodes every field of the shape and then succeeds exactly
    when the declared length equals one (the tag) plus the byte counts the
    fields reported; in every other case, a declared length of zero
    included, it returns the long-frame error. *)
Theorem ReadMsg_accepts_iff_length_matches (hi lo tag : byte)
    (typ : MsgType) (rest : Reader) :
  index msgTypes tag = Some typ ->
  ReadMsg (hi :: lo :: tag :: rest)
  = (if 256 * Z_of_byte hi + Z_of_byte lo
        =? 1 + snd (fst (decode_fields (field_kinds typ) rest))
     then (None, tag,
           Some (mkMsg typ (fst (fst (decode_fields (field_kinds typ) rest)))))
     else (Some (ErrTooLong tag), tag, None),
     snd (decode_fields (field_kinds typ) rest)).
Proof.
  intros Hreg. rewrite ReadMsg_prefixed, readByte_cons. cbn [fst snd].
  rewrite Hreg. cbv zeta.
  pose proof (Z_of_byte_range hi). pose proof (Z_of_byte_range lo).
  rewrite counter_zero_iff by (try apply reported_bound; lia).
  destruct (256 * Z_of_byte hi + Z_of_byte lo
            =? 1 + snd (fst (decode_fields (field_kinds typ) rest)));
    reflexivity.
Qed.

Lemma ReadMsg_accepts_iff_length_matches_witness :
  ReadMsg (x00 :: x00 :: YOU_ARE :: [x00; x00; x00; x05])
  = ((Some (ErrTooLong YOU_ARE), YOU_ARE, None), []).
Proof.
  apply (ReadMsg_accepts_iff_length_matches x00 x00 YOU_ARE MsgYouAre
           [x00; x00; x00; x05]).
  reflexivity.
Defined.

(** X3: a message returned by [ReadMsg] has the shape registered for the
    returned tag, one value of the right type per field of that shape, in
    order, and every value lies in the range of its Go type. *)
Theorem ReadMsg_message_well_formed (r : Reader) (c : Cmd) (m : Msg) :
  fst (ReadMsg r) = (None, c, Some m) ->
  index msgTypes c = Some (msg_type m)
  /\ map kind_of (msg_fields m) = field_kinds (msg_type m)
  /\ Forall decodable (msg_fields m).
Proof.
  intros H. destruct r as [| hi [| lo r0]]; [discriminate | discriminate |].
  rewrite ReadMsg_prefixed in H.
  destruct (index msgTypes (fst (readByte r0))) as [typ |] eqn:Hreg;
    [| discriminate].
  cbv zeta in H. cbn [fst] in H.
  destruct (u16 _ >? 0); [discriminate |].
  inversion H; subst c m; clear H. cbn [msg_type msg_fields].
  pose proof (decode_fields_sound (field_kinds typ) (snd (readByte r0)))
    as [Hk [Hd _]].
  repeat split; assumption.
Qed.

Lemma ReadMsg_message_well_formed_witness :
  index msgTypes YOU_ARE = Some MsgYouAre
  /\ map kind_of [VId 5] = field_kinds MsgYouAre
  /\ Forall decodable [VId 5].
Proof.
  apply (ReadMsg_message_well_formed
           [x00; x05; x1f; x00; x00; x00; x05] YOU_ARE
           (mkMsg MsgYouAre [VId 5])).
  vm_compute. reflexivity.
Defined.

(** X4: when [ReadMsg] accepts a frame, the source has been advanced past
    the prefix by at least the declared number of bytes (or is exhausted):
    no declared byte of an accepted frame is left unread. *)
Theorem ReadMsg_success_consumes_declared (hi lo : byte) (r0 : Reader)
    (c : Cmd) (m : Msg) :
  fst (ReadMsg (hi :: lo :: r0)) = (None, c, Some m) ->
  exists k : nat,
    snd (ReadMsg (hi :: lo :: r0)) = skipn k r0
    /\ 256 * Z_of_byte hi + Z_of_byte lo <= Z.of_nat k.
Proof.
  rewrite ReadMsg_prefixed.
  destruct (index msgTypes (fst (readByte r0))) as [typ |] eqn:Hreg;
    [| discriminate].
  cbv zeta. cbn [fst snd].
  pose proof (Z_of_byte_range hi). pose proof (Z_of_byte_range lo).
  rewrite counter_zero_iff by (try apply reported_bound; lia).
  destruct (Z.eqb_spec (256 * Z_of_byte hi + Z_of_byte lo)
              (1 + snd (fst (decode_fields (field_kinds typ)
                                (snd (readByte r0))))))
    as [E | E]; cbn [negb]; [| discriminate].
  intros _.
  destruct (decode_fields_advances (field_kinds typ) (snd (readByte r0)))
    as [k [Hk Hm]].
  exists (k + 1)%nat. rewrite Hk, readByte_skipn, skipn_skipn.
  split; [reflexivity | lia].
Qed.

Lemma ReadMsg_success_consumes_declared_witness :
  exists k : nat,
    snd (ReadMsg (x00 :: x05 :: [x1f; x00; x00; x00; x05; xaa]))
    = skipn k [x1f; x00; x00; x00; x05; xaa]
    /\ 256 * Z_of_byte x00 + Z_of_byte x05 <= Z.of_nat k.
Proof.
  apply (ReadMsg_success_consumes_declared x00 x05
           [x1f; x00; x00; x00; x05; xaa] YOU_ARE (mkMsg MsgYouAre [VId 5])).
  vm_compute. reflexivity.
Defined.

(* ------------------------------------------------------------------ *)
(** ** The primitive decoders at their edges *)

(** X5: for every text of at most 255 bytes, [Text.read] applied to what
    [Text.write] wrote returns the text unchanged and leaves the source
    right after it; the byte count it reports is the length plus one for
    up to 254 bytes, and 0 for exactly 255 bytes. *)
Theorem Text_read_write (t : Text) (r : Reader) :
  (String.length t <= 255)%nat ->
  Text_read (Text_write t [] ++ r)
  = ((t, if Nat.eqb (String.length t) 255 then 0
         else Z.of_nat (String.length t) + 1), r).
Proof.
  intros Hlen. unfold Text_read, bind.
  rewrite (readString_write t r Hlen). unfold ret. do 2 f_equal.
  destruct (Nat.eqb_spec (String.length t) 255) as [E | E].
  - rewrite E. reflexivity.
  - unfold u8. rewrite Z.mod_small by lia. apply u16_small. lia.
Qed.

Lemma Text_read_write_witness :
  Text_read (Text_write "alice" [] ++ [xaa])
  = (("alice", if Nat.eqb (String.length "alice") 255 then 0
               else Z.of_nat (String.length "alice") + 1), [xaa]).
Proof.
  apply (Text_read_write "alice" [xaa]). simpl. lia.
Defined.

Lemma Cards_read_loop_wire (l : Cards) (r : Reader) :
  Cards_read_loop (List.length l)
    (flat_map (fun c => [CardSeq c; CardSuit c]) l ++ r)
  = (l, r).
Proof.
  induction l as [| [s t] l IH]; [reflexivity |].
  cbn [List.length Cards_read_loop flat_map app CardSeq CardSuit].
  unfold bind. rewrite !readByte_cons, IH. reflexivity.
Qed.

(** X6: [Cards.read] parses a count byte followed by one (rank, suit) byte
    pair per card: for every list of at most 255 cards it returns the cards
    in order, reports twice the count plus one bytes, and leaves the source
    right after the last pair.  The empty list is the single byte 0. *)
Theorem Cards_read_wire (l : Cards) (r : Reader) :
  (List.length l <= 255)%nat ->
  Cards_read (Cards_wire l ++ r)
  = ((l, 2 * Z.of_nat (List.length l) + 1), r).
Proof.
  intros Hlen. unfold Cards_read, Cards_wire, bind. cbn [app].
  rewrite readByte_cons, Z_of_byte_of_Z. unfold u8.
  rewrite Z.mod_small, Nat2Z.id, Cards_read_loop_wire by lia.
  unfold ret. rewrite (u16_small (2 * _)) by lia.
  rewrite u16_small by lia. reflexivity.
Qed.

Lemma Cards_read_wire_witness :
  Cards_read (Cards_wire [mkCard x0d x04; mkCard x02 x01] ++ [xaa])
  = (([mkCard x0d x04; mkCard x02 x01],
      2 * Z.of_nat (List.length [mkCard x0d x04; mkCard x02 x01]) + 1),
     [xaa]).
Proof.
  apply (Cards_read_wire [mkCard x0d x04; mkCard x02 x01] [xaa]).
  simpl. lia.
Defined.

(** X7: whatever follows in the source, [Cards.read] returns exactly as many
    cards as the count byte says and reports twice that count plus one,
    also when the source ends before the announced pairs. *)
Theorem Cards_read_returns_count (n : byte) (r : Reader) :
  List.length (fst (fst (Cards_read (n :: r)))) = Z.to_nat (Z_of_byte n)
  /\ snd (fst (Cards_read (n :: r))) = 2 * Z_of_byte n + 1.
Proof.
  pose proof (Cards_read_count (n :: r)) as [Hlen Hrep].
  rewrite readByte_cons in Hlen, Hrep. cbn [fst] in Hlen, Hrep.
  split; [lia | exact Hrep].
Qed.

Lemma Cards_read_loop_nil (n : nat) :
  Cards_read_loop n [] = (repeat (mkCard x00 x00) n, []).
Proof.
  induction n as [| n IH]; [reflexivity |].
  cbn [Cards_read_loop repeat]. unfold bind.
  rewrite readByte_nil. cbv beta iota. rewrite readByte_nil. cbv beta iota.
  rewrite IH. reflexivity.
Qed.

(** X8: a count byte at the very end of the source yields that many cards
    of rank 0 and suit 0: the missing bytes are read as zeros, without any
    error. *)
Theorem Cards_read_at_end_of_source (n : byte) :
  Cards_read [n]
  = ((repeat (mkCard x00 x00) (Z.to_nat (Z_of_byte n)),
      2 * Z_of_byte n + 1), []).
Proof.
  pose proof (Z_of_byte_range n) as Hn.
  unfold Cards_read, bind. rewrite readByte_cons. cbv beta iota.
  rewrite Cards_read_loop_nil.
  unfold ret. rewrite (u16_small (2 * _)) by lia.
  rewrite u16_small by lia. reflexivity.
Qed.

(** X9: [readInt] on a source with fewer than four bytes returns 0, not a
    partial value, and drains the source; so [Big.read], [Id.read] and
    [Amount.read] yield zero there while still reporting four bytes. *)
Theorem readInt_short_source (r : Reader) :
  (List.length r < 4)%nat ->
  readInt r = (0, [])
  /\ Big_read r = ((0, 4), [])
  /\ Id_read r = ((0, 4), [])
  /\ Amount_read r = ((hundredths 0, 4), []).
Proof.
  intros H.
  assert (E : readInt r = (0, [])).
  { destruct r as [| a [| b [| c [| d r]]]]; try reflexivity.
    simpl in H. lia. }
  unfold Big_read, Id_read, Amount_read, bind. rewrite E.
  repeat split; reflexivity.
Qed.

Lemma readInt_short_source_witness :
  readInt [x01; x02; x03] = (0, [])
  /\ Big_read [x01; x02; x03] = ((0, 4), [])
  /\ Id_read [x01; x02; x03] = ((0, 4), [])
  /\ Amount_read [x01; x02; x03] = ((hundredths 0, 4), []).
Proof.
  apply (readInt_short_source [x01; x02; x03]). simpl. lia.
Defined.

(** X10: [readString] always returns a text of exactly as many bytes as
    the size byte announces (none on an empty source), padding with zero
    bytes when the source ends early, and never reports more than 255
    bytes although up to 256 are taken from the source. *)
Theorem readString_returns_announced_length (r : Reader) :
  String.length (fst (fst (readString r)))
  = match r with [] => 0%nat | b :: _ => Z.to_nat (Z_of_byte b) end
  /\ list_byte_of_string (fst (fst (readString r)))
     = match r with
       | [] => []
       | b :: r' =>
           firstn (Z.to_nat (Z_of_byte b)) r'
           ++ repeat x00 (Z.to_nat (Z_of_byte b) - List.length r')
       end
  /\ 0 <= snd (fst (readString r)) <= 255.
Proof.
  pose proof (readString_length r) as [Hlen Hrep].
  split; [exact Hlen |]. split; [| exact Hrep].
  unfold readString, bind. rewrite binary_Read_1.
  destruct r as [| b r']; [reflexivity |].
  unfold io_ReadFull, ret. cbn [fst snd].
  rewrite list_byte_of_string_of_list_byte. f_equal. f_equal.
  rewrite length_firstn. lia.
Qed.

(* ------------------------------------------------------------------ *)
(** ** Frames on the sink *)

(** X11: [writeMessage] keeps what the sink already holds and appends one
    frame: two prefix bytes, then the bytes of the body values in order.
    The prefix is the big-endian byte count of the body modulo 65536, so it
    is the exact count whenever the body is shorter than 65536 bytes. *)
Theorem writeMessage_frame (w : Writer) (body : list writable) :
  exists hi lo : byte,
    writeMessage w body = w ++ hi :: lo :: encode body
    /\ 256 * Z_of_byte hi + Z_of_byte lo
       = Z.of_nat (List.length (encode body)) mod 65536
    /\ (Z.of_nat (List.length (encode body)) < 65536 ->
        256 * Z_of_byte hi + Z_of_byte lo
        = Z.of_nat (List.length (encode body))).
Proof.
  rewrite writeMessage_eq.
  pose proof (u16_range (Z.of_nat (List.length (encode body)))) as Hr.
  destruct (length_prefix _ Hr) as [hi [lo [Hput Hval]]].
  exists hi, lo. rewrite Hput. cbn [app].
  split; [reflexivity |]. split; [exact Hval |].
  intros Hlt. rewrite Hval. apply u16_small. lia.
Qed.

(** X12: two frames written one after the other on the same sink are read
    back by two successive calls of [ReadMsg], in order, each call stopping
    exactly at the end of its frame (under the conditions of the round trip
    of a single frame). *)
Theorem two_frames_roundtrip (c1 c2 : Cmd) (typ1 typ2 : MsgType)
    (vs1 vs2 : list value) (ws1 ws2 : list writable) (rest : Reader) :
  index msgTypes c1 = Some typ1 ->
  map kind_of vs1 = field_kinds typ1 ->
  Forall in_domain vs1 ->
  as_writables (VCmd c1 :: vs1) = Some ws1 ->
  index msgTypes c2 = Some typ2 ->
  map kind_of vs2 = field_kinds typ2 ->
  Forall in_domain vs2 ->
  as_writables (VCmd c2 :: vs2) = Some ws2 ->
  (a <- ReadMsg ;; b <- ReadMsg ;; ret (a, b))
    (writeMessage (writeMessage [] ws1) ws2 ++ rest)
  = (((None, c1, Some (mkMsg typ1 vs1)), (None, c2, Some (mkMsg typ2 vs2))),
     rest).
Proof.
  intros R1 S1 D1 W1 R2 S2 D2 W2.
  rewrite (writeMessage_app (writeMessage [] ws1) ws2), <- app_assoc.
  unfold bind.
  rewrite (frame_roundtrip c1 typ1 vs1 ws1 _ R1 S1 D1 W1).
  rewrite (frame_roundtrip c2 typ2 vs2 ws2 _ R2 S2 D2 W2).
  reflexivity.
Qed.

Lemma two_frames_roundtrip_witness :
  (a <- ReadMsg ;; b <- ReadMsg ;; ret (a, b))
    (writeMessage
       (writeMessage [] [WCmd YOU_ARE; WId 5])
       [WCmd NOTIFY_CHAT; WId 1; WId (-2); WText "hello"] ++ [xaa])
  = (((None, YOU_ARE, Some (mkMsg MsgYouAre [VId 5])),
      (None, NOTIFY_CHAT,
       Some (mkMsg MsgNotifyChat [VId 1; VId (-2); VText "hello"]))),
     [xaa]).
Proof.
  apply (two_frames_roundtrip YOU_ARE NOTIFY_CHAT MsgYouAre MsgNotifyChat).
  - reflexivity.
  - reflexivity.
  - repeat constructor; cbn; lia.
  - reflexivity.
  - reflexivity.
  - reflexivity.
  - repeat constructor; cbn; lia.
  - reflexivity.
Defined.

(* ------------------------------------------------------------------ *)
(** ** The request helpers *)

Lemma encode_cons_Cmd (c : Cmd) (ws : list writable) :
  encode (WCmd c :: ws) = c :: encode ws.
Proof.
  unfold encode. cbn [flat_map write]. unfold Cmd_write.
  rewrite write_byte_nil. reflexivity.
Qed.

Lemma request_refused (c : Cmd) (ws : list writable) :
  index msgTypes c = None ->
  ReadMsg (writeMessage [] (WCmd c :: ws))
  = ((Some (ErrCannotDeserialize c), c, None), encode ws).
Proof.
  intros Hreg. rewrite writeMessage_eq, encode_cons_Cmd.
  cbn [app PutBigEndian]. apply ReadMsg_unregistered. exact Hreg.
Qed.

(** X13: none of the sixteen request helpers writes a frame that [ReadMsg]
    decodes: whatever the arguments, the tag each helper writes has no
    entry in the registry, and [ReadMsg] applied to the helper's output
    returns the unknown-command error for that tag and no message. *)
Theorem requests_not_decodable :
  (forall nick pass,
      fst (ReadMsg (WriteLogin [] nick pass))
      = (Some (ErrCannotDeserialize LOGIN), LOGIN, None))
  /\ fst (ReadMsg (WriteLogout []))
     = (Some (ErrCannotDeserialize LOGOUT), LOGOUT, None)
  /\ (forall numSeats required l low high,
         fst (ReadMsg (WriteStartGame [] numSeats required l low high))
         = (Some (ErrCannotDeserialize START_GAME), START_GAME, None))
  /\ (forall gid,
         fst (ReadMsg (WriteFold [] gid))
         = (Some (ErrCannotDeserialize FOLD), FOLD, None))
  /\ (forall gid,
         fst (ReadMsg (WriteSeatQuery [] gid))
         = (Some (ErrCannotDeserialize SEAT_QUERY), SEAT_QUERY, None))
  /\ (forall l o1 n1 o2 n2 o3 n3,
         fst (ReadMsg (WriteGameQuery [] l o1 n1 o2 n2 o3 n3))
         = (Some (ErrCannotDeserialize GAME_QUERY), GAME_QUERY, None))
  /\ (forall gid seat amt,
         fst (ReadMsg (WriteJoin [] gid seat amt))
         = (Some (ErrCannotDeserialize JOIN), JOIN, None))
  /\ (forall gid,
         fst (ReadMsg (WriteWatch [] gid))
         = (Some (ErrCannotDeserialize WATCH), WATCH, None))
  /\ (forall gid,
         fst (ReadMsg (WriteUnwatch [] gid))
         = (Some (ErrCannotDeserialize UNWATCH), UNWATCH, None))
  /\ (forall gid,
         fst (ReadMsg (WriteLeave [] gid))
         = (Some (ErrCannotDeserialize LEAVE), LEAVE, None))
  /\ (forall gid amt,
         fst (ReadMsg (WriteRaise [] gid amt))
         = (Some (ErrCannotDeserialize RAISE), RAISE, None))
  /\ fst (ReadMsg (WriteBalanceQuery []))
     = (Some (ErrCannotDeserialize BALANCE_QUERY), BALANCE_QUERY, None)
  /\ (forall gid,
         fst (ReadMsg (WriteSitOut [] gid))
         = (Some (ErrCannotDeserialize SIT_OUT), SIT_OUT, None))
  /\ (forall gid,
         fst (ReadMsg (WriteComeBack [] gid))
         = (Some (ErrCannotDeserialize COME_BACK), COME_BACK, None))
  /\ (forall msg,
         fst (ReadMsg (WriteChat [] msg))
         = (Some (ErrCannotDeserialize CHAT), CHAT, None))
  /\ (forall pid,
         fst (ReadMsg (WritePlayerQuery [] pid))
         = (Some (ErrCannotDeserialize PLAYER_QUERY), PLAYER_QUERY, None)).
Proof.
  repeat split; intros;
    unfold WriteLogin, WriteLogout, WriteStartGame, WriteFold,
      WriteSeatQuery, WriteGameQuery, WriteJoin, WriteWatch, WriteUnwatch,
      WriteLeave, WriteRaise, WriteBalanceQuery, WriteSitOut, WriteComeBack,
      WriteChat, WritePlayerQuery;
    rewrite request_refused by reflexivity; reflexivity.
Qed.

Lemma id_request_layout (c : Cmd) (gid : Id) (w : Writer) :
  writeMessage w [WCmd c; WId gid]
  = w ++ [x00; x05; c] ++ PutBigEndian 4 gid.
Proof.
  rewrite writeMessage_eq, encode_cons_Cmd.
  unfold encode. cbn [flat_map write]. unfold Id_write, binary_Write.
  cbn [app]. rewrite app_nil_r. cbn [List.length].
  rewrite PutBigEndian_length. reflexivity.
Qed.

(** X14: each of the eight helpers that send only a game or player id
    appends exactly seven bytes to the sink: the length prefix 00 05, the
    helper's tag, and the id as four big-endian bytes (two's complement). *)
Theorem id_requests_layout (w : Writer) (gid : Id) :
  WriteFold w gid = w ++ [x00; x05; x07] ++ PutBigEndian 4 gid
  /\ WriteSeatQuery w gid = w ++ [x00; x05; x0e] ++ PutBigEndian 4 gid
  /\ WriteWatch w gid = w ++ [x00; x05; x03] ++ PutBigEndian 4 gid
  /\ WriteUnwatch w gid = w ++ [x00; x05; x04] ++ PutBigEndian 4 gid
  /\ WriteLeave w gid = w ++ [x00; x05; x09] ++ PutBigEndian 4 gid
  /\ WriteSitOut w gid = w ++ [x00; x05; x0a] ++ PutBigEndian 4 gid
  /\ WriteComeBack w gid = w ++ [x00; x05; x0b] ++ PutBigEndian 4 gid
  /\ WritePlayerQuery w gid = w ++ [x00; x05; x0f] ++ PutBigEndian 4 gid
  /\ List.length (PutBigEndian 4 gid) = 4%nat
  /\ (- 2147483648 <= gid < 2147483648 ->
      forall r, Id_read (PutBigEndian 4 gid ++ r) = ((gid, 4), r)).
Proof.
  repeat split; try apply id_request_layout.
  intros Hgid r. unfold Id_read, bind.
  rewrite readInt_Put, i32_u32 by lia. reflexivity.
Qed.

Lemma id_requests_layout_witness :
  Id_read (PutBigEndian 4 (-7) ++ [xaa]) = ((-7, 4), [xaa]).
Proof.
  apply (proj2 (proj2 (proj2 (proj2 (proj2 (proj2 (proj2 (proj2 (proj2
           (id_requests_layout [] (-7))))))))))).
  lia.
Defined.

Ltac frame_bytes :=
  rewrite writeMessage_eq, encode_cons_Cmd;
  unfold encode; cbn [flat_map write];
  unfold LimitType_write, Id_write, GameType_write, Op_write, Small_write,
    Big_write, Amount_write, Big_write, binary_Write;
  rewrite ?PutBigEndian_1, ?Text_write_nil; cbn [app];
  rewrite ?app_nil_r; cbn [List.length];
  rewrite ?length_app, ?PutBigEndian_length; cbn [List.length].

(** X15: the byte layout of the requests of fixed size.  [WriteLogout] and
    [WriteBalanceQuery] append three bytes; [WriteGameQuery] eleven (prefix
    00 09, tag, game type 1 and the seven arguments, one byte each);
    [WriteJoin] twelve and [WriteRaise] eleven, the amount being sent as the
    big-endian integer of its hundredths; [WriteStartGame] forty-one (prefix
    00 27), with the fixed table name, start delay 14000 and player timeout
    3600000. *)
Theorem fixed_requests_layout (w : Writer) :
  WriteLogout w = w ++ [x00; x01; x02]
  /\ WriteBalanceQuery w = w ++ [x00; x01; x10]
  /\ (forall l o1 n1 o2 n2 o3 n3,
         WriteGameQuery w l o1 n1 o2 n2 o3 n3
         = w ++ [x00; x09; x0d; x01; l; o1; n1; o2; n2; o3; n3])
  /\ (forall gid seat amt,
         WriteJoin w gid seat amt
         = w ++ [x00; x0a; x08] ++ PutBigEndian 4 gid ++ [seat]
             ++ PutBigEndian 4 (uint32_of_f32 (f32_mul amt hundred)))
  /\ (forall gid amt,
         WriteRaise w gid amt
         = w ++ [x00; x09; x06] ++ PutBigEndian 4 gid
             ++ PutBigEndian 4 (uint32_of_f32 (f32_mul amt hundred)))
  /\ (forall numSeats required l low high,
         WriteStartGame w numSeats required l low high
         = w ++ [x00; x27; x11]
             ++ (x0a :: list_byte_of_string "Test Table")
             ++ [x01; l]
             ++ PutBigEndian 4 (uint32_of_f32 (f32_mul low hundred))
             ++ PutBigEndian 4 (uint32_of_f32 (f32_mul high hundred))
             ++ PutBigEndian 4 numSeats
             ++ PutBigEndian 4 required
             ++ [x00; x00; x36; xb0]
             ++ [x00; x36; xee; x80]
             ++ [x00]).
Proof.
  repeat split; intros;
    unfold WriteLogout, WriteBalanceQuery, WriteGameQuery, WriteJoin,
      WriteRaise, WriteStartGame;
    frame_bytes; reflexivity.
Qed.

(* ------------------------------------------------------------------ *)
(** ** Names *)

Lemma In_all_bytes (c : byte) : In c all_bytes.
Proof.
  unfold all_bytes. apply in_map_iff.
  exists (Z.to_nat (Z_of_byte c)). pose proof (Z_of_byte_range c) as Hc.
  split.
  - rewrite Z2Nat.id by lia. apply byte_of_Z_of_byte.
  - apply in_seq. lia.
Qed.

Lemma distinct_NoDup (l : list string) : distinct l = true -> NoDup l.
Proof.
  induction l as [| s l IH]; cbn [distinct]; intros H; [constructor |].
  apply andb_true_iff in H. destruct H as [Hs Hl].
  constructor; [| apply IH; exact Hl].
  intros Hin. apply negb_true_iff in Hs.
  assert (Hex : existsb (String.eqb s) l = true).
  { apply existsb_exists. exists s. split; [exact Hin | apply String.eqb_refl]. }
  congruence.
Qed.

Lemma NoDup_map_injective {A : Type} (f : A -> string) (l : list A)
    (x y : A) :
  NoDup (map f l) -> In x l -> In y l -> f x = f y -> x = y.
Proof.
  induction l as [| a l IH]; cbn [map In]; intros Hnd Hx Hy Hf; [tauto |].
  inversion Hnd as [| ? ? Hnotin Hnd']; subst.
  destruct Hx as [Hx | Hx], Hy as [Hy | Hy]; subst.
  - reflexivity.
  - exfalso. apply Hnotin. rewrite Hf. apply in_map. exact Hy.
  - exfalso. apply Hnotin. rewrite <- Hf. apply in_map. exact Hx.
  - apply IH; assumption.
Qed.

(** X16: [Cmd.String] gives different texts for different tags, over all
    256 values of a tag: a printed command identifies its tag. *)
Theorem Cmd_String_injective (c d : Cmd) :
  Cmd_String c = Cmd_String d -> c = d.
Proof.
  apply (NoDup_map_injective Cmd_String all_bytes);
    try apply In_all_bytes.
  apply distinct_NoDup. vm_compute. reflexivity.
Qed.

Lemma Cmd_String_injective_witness : PLAYER_INFO = byte_of_Z 19.
Proof.
  apply (Cmd_String_injective PLAYER_INFO (byte_of_Z 19)). reflexivity.
Defined.

Lemma index_In_key (m : list (Cmd * MsgType)) (c : Cmd) (t : MsgType) :
  index m c = Some t -> In (c, t) m.
Proof.
  induction m as [| [k t'] m IH]; unfold index; fold index;
    cbn [In]; [discriminate |].
  destruct (Byte.eqb k c) eqn:E.
  - intros H. inversion H. apply Byte.byte_dec_bl in E. subst. left.
    reflexivity.
  - intros H. right. apply IH. exact H.
Qed.

(** X17: every tag of the registry has a name in [Cmd.String]; over all 256
    tags exactly 41 have one, the others print as "Unknown Command (n)"
    with n the tag in decimal. *)
Theorem registered_tags_are_named :
  (forall c typ, index msgTypes c = Some typ ->
                 Cmd_String c <> unknown_command c)
  /\ List.length
       (filter (fun c => negb (String.eqb (Cmd_String c) (unknown_command c)))
          all_bytes) = 41%nat
  /\ unknown_command (byte_of_Z 5) = "Unknown Command (5)"
  /\ Cmd_String (byte_of_Z 200) = "Unknown Command (200)".
Proof.
  split; [| repeat split; vm_compute; reflexivity].
  intros c typ H. apply index_In_key in H. cbn [msgTypes In] in H.
  repeat (destruct H as [H | H];
          [inversion H; subst; vm_compute; discriminate |]).
  contradiction.
Qed.

(** X18: [GameStage.String] names the seven stages 0 to 6, each
    differently, and returns "Unknown game stage" for exactly the values
    above 6. *)
Theorem GameStage_String_unknown_iff (c : GameStage) :
  (GameStage_String c = "Unknown game stage" <-> 6 < Z_of_byte c)
  /\ map GameStage_String
       [GS_PREFLOP; GS_FLOP; GS_TURN; GS_RIVER; GS_DELAYED_START; GS_BLINDS;
        GS_SHOWDOWN]
     = ["Pre-flop"; "Flop"; "Turn"; "River"; "Delayed start"; "Blinds";
        "Showdown"].
Proof.
  split; [| reflexivity].
  assert (H : forallb
                (fun c => Bool.eqb
                            (String.eqb (GameStage_String c)
                               "Unknown game stage")
                            (6 <? Z_of_byte c)) all_bytes = true)
    by (vm_compute; reflexivity).
  rewrite forallb_forall in H. specialize (H c (In_all_bytes c)).
  apply Bool.eqb_prop in H. rewrite <- String.eqb_eq, H. apply Z.ltb_lt.
Qed.

Lemma In_all_errors (e : error) : In e all_errors.
Proof.
  unfold all_errors. apply in_or_app.
  destruct e as [[ | ] | c | c | c]; [left; cbn; tauto | left; cbn; tauto | | |];
    right; apply in_flat_map; exists c; (split; [apply In_all_bytes |]);
    cbn; tauto.
Qed.

(** X19: the texts of the errors [ReadMsg] can return are pairwise
    different: the text tells the kind of the error and, for the errors
    that carry one, the command tag. *)
Theorem Error_injective (e1 e2 : error) : Error e1 = Error e2 -> e1 = e2.
Proof.
  apply (NoDup_map_injective Error all_errors); try apply In_all_errors.
  apply distinct_NoDup. vm_compute. reflexivity.
Qed.

Lemma Error_injective_witness :
  ErrCannotDeserialize LOGIN = ErrCannotDeserialize (byte_of_Z 1).
Proof.
  apply (Error_injective (ErrCannotDeserialize LOGIN)
           (ErrCannotDeserialize (byte_of_Z 1))).
  reflexivity.
Defined.

(* ------------------------------------------------------------------ *)
(** ** The registry as a map *)


(* ------------------------------------------------------------------ *)
(** ** Amounts on the wire *)

Lemma In_wire_range (k : nat) (lo n : Z) :
  lo <= n < lo + Z.of_nat k -> In n (wire_range lo k).
Proof.
  revert lo. induction k as [| k IH]; intros lo H; [lia |].
  cbn [wire_range In]. destruct (Z.eq_dec lo n) as [E | E]; [left; exact E |].
  right. apply IH. lia.
Qed.

Lemma amount_roundtrip_eq (a : Amount) :
  amount_roundtrip a = hundredths (uint32_of_f32 (f32_mul a hundred)).
Proof.
  unfold amount_roundtrip, Amount_read, Amount_write, Big_write,
    binary_Write, bind.
  cbn [app]. rewrite <- (app_nil_r (PutBigEndian 4 _)), readInt_Put.
  unfold uint32_of_f32 at 1. rewrite u32_idem. reflexivity.
Qed.

(** X21: for every wire integer below 65536 (amounts up to 655.35), the
    amount [Amount.read] makes of it is written back by [Amount.write]
    either as the same integer or as the integer just below: a round trip
    never raises such an amount and lowers it by at most one hundredth. *)
Theorem amount_loses_at_most_one_hundredth (n : Z) :
  0 <= n < 65536 ->
  amount_roundtrip (hundredths n) = hundredths (rewritten n)
  /\ (rewritten n = n \/ rewritten n = n - 1).
Proof.
  intros Hn. split; [apply amount_roundtrip_eq |].
  assert (H : forallb
                (fun n => (rewritten n =? n) || (rewritten n =? n - 1))
                (wire_range 0 (Z.to_nat 65536)) = true)
    by (vm_compute; reflexivity).
  rewrite forallb_forall in H.
  assert (Hin : In n (wire_range 0 (Z.to_nat 65536)))
    by (apply In_wire_range; rewrite Z2Nat.id; lia).
  specialize (H n Hin).
  apply orb_true_iff in H. destruct H as [H | H]; apply Z.eqb_eq in H; tauto.
Qed.

Lemma amount_loses_at_most_one_hundredth_witness :
  amount_roundtrip (hundredths 1999) = hundredths (rewritten 1999)
  /\ (rewritten 1999 = 1999 \/ rewritten 1999 = 1999 - 1).
Proof.
  apply (amount_loses_at_most_one_hundredth 1999). lia.
Defined.

(** X22: every amount below 0.53 survives the round trip through
    [Amount.write] and [Amount.read] unchanged; 53 hundredths is the least
    wire integer that does not. *)
Theorem amounts_below_53_hundredths_exact (n : Z) :
  0 <= n < 53 ->
  amount_exact (hundredths n)
  /\ amount_roundtrip (hundredths n) = hundredths n
  /\ rewritten 53 = 52.
Proof.
  intros Hn.
  assert (H : forallb (fun n => rewritten n =? n) (wire_range 0 53) = true)
    by (vm_compute; reflexivity).
  rewrite forallb_forall in H.
  assert (Hin : In n (wire_range 0 53)) by (apply In_wire_range; lia).
  specialize (H n Hin). apply Z.eqb_eq in H.
  unfold amount_exact. rewrite amount_roundtrip_eq.
  fold (rewritten n). rewrite H.
  repeat split; reflexivity.
Qed.

Lemma amounts_below_53_hundredths_exact_witness :
  amount_exact (hundredths 52)
  /\ amount_roundtrip (hundredths 52) = hundredths 52
  /\ rewritten 53 = 52.
Proof.
  apply (amounts_below_53_hundredths_exact 52). lia.
Defined.
